(** * Verification of collect_kpop_trade_v2.py

    Shallow embedding of the collection pipeline of the k-pop trade
    collector: the title-tag parser, the Reddit OAuth session, the
    retry decorator around the search calls, the paginated fetcher,
    the record normaliser and the aggregation stages of
    [KpopTradeCollector.collect].

    Conventions of the model.
    - Python [str] values are modelled as [String.string] (ASCII
      characters); [str.lower], [str.upper] and [str.strip] act on the
      ASCII letters and the ASCII whitespace characters as Python does.
    - A [datetime] is a [Z] counting seconds since [datetime.min]
      (0001-01-01 00:00:00); [datetime.fromtimestamp] is taken in a UTC
      local time zone. *)

From Stdlib Require Import String Ascii List ZArith Lia Bool Sorted Permutation.
Import ListNotations.
Open Scope string_scope.
Open Scope Z_scope.

(* ================================================================= *)
(** ** Python string primitives *)

Module PyStr.

Definition ascii_lower (c : ascii) : ascii :=
  let n := nat_of_ascii c in
  if (Nat.leb 65 n && Nat.leb n 90)%bool then ascii_of_nat (n + 32) else c.

Definition ascii_upper (c : ascii) : ascii :=
  let n := nat_of_ascii c in
  if (Nat.leb 97 n && Nat.leb n 122)%bool then ascii_of_nat (n - 32) else c.

Fixpoint str_map (f : ascii -> ascii) (s : string) : string :=
  match s with
  | EmptyString => EmptyString
  | String c r => String (f c) (str_map f r)
  end.

(** [s.lower()] and [s.upper()] *)
Definition lower (s : string) : string := str_map ascii_lower s.
Definition upper (s : string) : string := str_map ascii_upper s.

(** [str.isspace] on ASCII: \t \n \v \f \r, the separators \x1c..\x1f
    and the space. *)
Definition is_space (c : ascii) : bool :=
  let n := nat_of_ascii c in
  ((Nat.leb 9 n && Nat.leb n 13) || (Nat.leb 28 n && Nat.leb n 32))%bool.

Fixpoint lstrip (s : string) : string :=
  match s with
  | EmptyString => EmptyString
  | String c r => if is_space c then lstrip r else s
  end.

Fixpoint rev_str (s : string) (acc : string) : string :=
  match s with
  | EmptyString => acc
  | String c r => rev_str r (String c acc)
  end.

(** [s.strip()] *)
Definition strip (s : string) : string :=
  rev_str (lstrip (rev_str (lstrip s) EmptyString)) EmptyString.

(** [s.rstrip(ch)] for a single character [ch] *)
Fixpoint drop_while_char (ch : ascii) (s : string) : string :=
  match s with
  | EmptyString => EmptyString
  | String c r => if Ascii.eqb c ch then drop_while_char ch r else s
  end.

Definition rstrip_char (ch : ascii) (s : string) : string :=
  rev_str (drop_while_char ch (rev_str s EmptyString)) EmptyString.

Fixpoint prefixb (p s : string) : bool :=
  match p, s with
  | EmptyString, _ => true
  | String a p', String b s' => Ascii.eqb a b && prefixb p' s'
  | _, _ => false
  end.

(** [p in s] *)
Fixpoint containsb (p s : string) : bool :=
  prefixb p s ||
  match s with
  | EmptyString => false
  | String _ s' => containsb p s'
  end.

(** [s.endswith(p)] *)
Definition endswith (s p : string) : bool :=
  prefixb (rev_str p EmptyString) (rev_str s EmptyString).

End PyStr.

Import PyStr.

(* ================================================================= *)
(** ** [parse_title_tags] *)

Module TitleTags.

(** [transaction_types] *)
Definition transaction_types : list string :=
  ["WTS"; "WTB"; "WTT"; "WTT/WTS"; "WTS/WTT"; "ISO"].

(** [country_mapping]: the dict literal, in insertion order. *)
Definition country_mapping : list (string * string) :=
  [("USA", "USA"); ("US", "USA"); ("UK", "UK"); ("EU", "EU"); ("WW", "WW");
   ("CAN", "CAN"); ("CA", "CAN"); ("AUS", "AUS"); ("AU", "AUS");
   ("KR", "KR"); ("JP", "JP"); ("SG", "SG"); ("PH", "PH"); ("MY", "MY");
   ("TH", "TH"); ("ID", "ID"); ("VN", "VN"); ("TW", "TW"); ("HK", "HK");
   ("NZ", "NZ"); ("DE", "DE"); ("FR", "FR"); ("NL", "NL"); ("IT", "IT");
   ("ES", "ES"); ("BR", "BR"); ("MX", "MX"); ("IN", "IN");
   ("CANADA", "CAN"); ("AUSTRALIA", "AUS"); ("KOREA", "KR"); ("JAPAN", "JP");
   ("SINGAPORE", "SG"); ("PHILIPPINES", "PH"); ("MALAYSIA", "MY");
   ("THAILAND", "TH"); ("INDONESIA", "ID"); ("VIETNAM", "VN");
   ("TAIWAN", "TW"); ("GERMANY", "DE"); ("FRANCE", "FR");
   ("NETHERLANDS", "NL"); ("ITALY", "IT"); ("SPAIN", "ES");
   ("BRAZIL", "BR"); ("MEXICO", "MX"); ("INDIA", "IN")].

(** [country_mapping[k]] if [k in country_mapping] *)
Fixpoint country_lookup_in (m : list (string * string)) (k : string)
  : option string :=
  match m with
  | [] => None
  | (k', v) :: m' => if String.eqb k k' then Some v else country_lookup_in m' k
  end.

Definition country_lookup (k : string) : option string :=
  country_lookup_in country_mapping k.

(** The loop [for tt in transaction_types: if tt.lower() in
    title.lower(): transaction_type = tt.upper(); break]. *)
Fixpoint first_transaction_type (tts : list string) (title : string)
  : option string :=
  match tts with
  | [] => None
  | tok :: rest =>
      if containsb (lower tok) (lower title) then Some (upper tok)
      else first_transaction_type rest title
  end.

(** Greedy [[^\]]+]: the maximal run of characters other than [']'],
    and what follows it. *)
Fixpoint take_run (s : string) : string * string :=
  match s with
  | EmptyString => (EmptyString, EmptyString)
  | String c r =>
      if Ascii.eqb c "]" then (EmptyString, s)
      else let (a, b) := take_run r in (String c a, b)
  end.

(** [re.findall(r'\[([^\]]+)\]', s)]: scan left to right; at a ['['
    followed by a non-empty run and a [']'] emit the run and resume
    after the [']'], otherwise advance one character. [fuel] is the
    length of the string, which bounds the number of steps. *)
Fixpoint findall_brackets (fuel : nat) (s : string) : list string :=
  match fuel with
  | O => []
  | S fuel' =>
      match s with
      | EmptyString => []
      | String c r =>
          if Ascii.eqb c "[" then
            match take_run r with
            | (String a run, String _ rest) =>
                String a run :: findall_brackets fuel' rest
            | _ => findall_brackets fuel' r
            end
          else findall_brackets fuel' r
      end
  end.

Definition bracket_segments (s : string) : list string :=
  findall_brackets (String.length s) s.

(** The loop [for match in bracket_matches: match_clean = match.strip();
    if match_clean in country_mapping: country = ...; break]. *)
Fixpoint first_country (ms : list string) : option string :=
  match ms with
  | [] => None
  | m :: rest =>
      match country_lookup (strip m) with
      | Some c => Some c
      | None => first_country rest
      end
  end.

Definition parse_title_tags (title : string) : option string * option string :=
  (first_transaction_type transaction_types title,
   first_country (bracket_segments (upper title))).


End TitleTags.

(* ================================================================= *)
(** ** Exceptions, [datetime] and the [TradePost] model *)

Module Model.

Import TitleTags.

(** The exceptions that matter to the control flow. The first four are
    those named by [retry_if_exception_type((RequestException,
    TimeoutError))]: the [requests] ones are [RequestException]
    subclasses, [BuiltinTimeoutError] is Python's [TimeoutError]. *)
Inductive Exn :=
| ReqConnectionError
| ReqTimeout
| ReqHTTPError (status : Z)
| BuiltinTimeoutError
| ValueError
| TypeError
| KeyError
| OverflowError
| RetryError.

(** Outcome of a Python call: a returned value or a raised exception. *)
Inductive Result (A : Type) :=
| Ok (a : A)
| Raise (e : Exn).
Arguments Ok {A} a.
Arguments Raise {A} e.

(** [datetime.min] and [datetime.max], in seconds since [datetime.min]. *)
Definition datetime_min : Z := 0.
Definition datetime_max : Z := 315537897599.

(** The Unix epoch, in seconds since [datetime.min]. *)
Definition epoch : Z := 62135596800.

(** [datetime.fromtimestamp(ts)] (UTC local time): CPython raises
    [ValueError] below 0001-01-02 (its fold probe steps one day back)
    and above [datetime.max]. *)
Definition fromtimestamp (ts : Z) : Result Z :=
  let d := ts + epoch in
  if (d <? 86400) || (datetime_max <? d) then Raise ValueError else Ok d.

(** [timedelta(days=180)] in seconds *)
Definition days_180 : Z := 180 * 86400.

Definition default {A} (d : A) (o : option A) : A :=
  match o with Some a => a | None => d end.

(** Python truthiness of an optional string ([None] or [""] is false). *)
Definition truthy_str (o : option string) : bool :=
  match o with Some s => negb (String.eqb s "") | None => false end.

(** [class TradePost(BaseModel)] *)
Record TradePost := mkTradePost {
  title : string;
  author : option string;
  author_flair : option string;
  transaction_type : option string;
  country : option string;
  flair : option string;
  score : Z;
  comment_count : Z;
  selftext : string;
  created_timestamp : option Z;
  scraped_at : Z;
  permalink : string;
  first_image_url : option string;
  is_gallery : bool;
  subreddit : option string;
  source : string
}.

(** A Reddit [post["data"]] dict; [None] is a missing key. The
    [media_metadata] dict is the list of its entries in insertion order,
    each given by the value of [entry.get("s", {}).get("u")];
    [preview] is [preview.get("images", [])], each image given by
    [image.get("source", {}).get("url")]. *)
Record RedditPostData := mkRedditPostData {
  rp_created_utc : option Z;
  rp_title : option string;
  rp_author : option string;
  rp_author_flair_text : option string;
  rp_link_flair_text : option string;
  rp_score : option Z;
  rp_num_comments : option Z;
  rp_selftext : option string;
  rp_permalink : option string;
  rp_is_gallery : option bool;
  rp_has_gallery_data : bool;
  rp_media_metadata : option (list (option string));
  rp_url : option string;
  rp_preview : option (list (option string))
}.

(** A listing or search response: [data["data"]["children"]] and
    [data["data"].get("after")]. *)
Record Listing := mkListing {
  children : list RedditPostData;
  after : option string
}.

(** The outcome of [requests.get(...)], [raise_for_status()] and
    [response.json()]. *)
Inductive HttpOutcome (A : Type) :=
| HttpRaise (e : Exn)
| HttpJson (a : A).
Arguments HttpRaise {A} e.
Arguments HttpJson {A} a.

Definition image_exts : list string :=
  [".jpg"; ".png"; ".gif"; ".jpeg"; ".webp"].

(** The image-URL extraction of the two Reddit loops. *)
Definition first_image (pd : RedditPostData) : option string :=
  if (default false (rp_is_gallery pd) && rp_has_gallery_data pd)%bool then
    match default [] (rp_media_metadata pd) with
    | u :: _ => Some (default "" u)
    | [] => None
    end
  else if existsb (endswith (default "" (rp_url pd))) image_exts then
    rp_url pd
  else
    match rp_preview pd with
    | Some (u :: _) => Some (default "" u)
    | _ => None
    end.

(** The [TradePost(...)] built for a Reddit post whose timestamp
    converted to [created_at]; [now] is the [datetime.now()] of
    [scraped_at]'s default factory. *)
Definition reddit_trade_post (sub : string) (now : Z) (pd : RedditPostData)
    (created_at : Z) : TradePost :=
  let t := default "" (rp_title pd) in
  let '(ttype, c) := parse_title_tags t in
  {| title := t;
     author := rp_author pd;
     author_flair := rp_author_flair_text pd;
     transaction_type := ttype;
     country := c;
     flair := rp_link_flair_text pd;
     score := default 0 (rp_score pd);
     comment_count := default 0 (rp_num_comments pd);
     selftext := default "" (rp_selftext pd);
     created_timestamp := Some created_at;
     scraped_at := now;
     permalink := "https://reddit.com" ++ default "" (rp_permalink pd);
     first_image_url := first_image pd;
     is_gallery := default false (rp_is_gallery pd);
     subreddit := Some sub;
     source := "reddit_api" |}.

(** [datetime.fromtimestamp(post_data.get("created_utc", 0))] *)
Definition created_of (pd : RedditPostData) : Result Z :=
  fromtimestamp (default 0 (rp_created_utc pd)).

(** A SerpAPI organic result: [title], [link], [snippet]. *)
Record SerpItem := mkSerpItem {
  si_title : option string;
  si_link : option string;
  si_snippet : option string
}.

(** A SerpAPI response: its ["error"] key and [organic_results]. *)
Record SerpResponse := mkSerpResponse {
  serp_error : option string;
  organic_results : list SerpItem
}.

(** The [TradePost(...)] of [SerpAPIClient.search]. *)
Definition serp_trade_post (now : Z) (item : SerpItem) : TradePost :=
  let t := default "" (si_title item) in
  let '(ttype, c) := parse_title_tags t in
  {| title := t;
     author := None;
     author_flair := None;
     transaction_type := ttype;
     country := c;
     flair := None;
     score := 0;
     comment_count := 0;
     selftext := default "" (si_snippet item);
     created_timestamp := None;
     scraped_at := now;
     permalink := default "" (si_link item);
     first_image_url := None;
     is_gallery := false;
     subreddit := None;
     source := "serpapi" |}.

End Model.

(* ================================================================= *)
(** ** The [@retry] decorator and the two search calls *)

Module Search.

Import Model.

(** [retry_if_exception_type((requests.exceptions.RequestException,
    TimeoutError))] *)
Definition retryable (e : Exn) : bool :=
  match e with
  | ReqConnectionError | ReqTimeout | ReqHTTPError _ | BuiltinTimeoutError => true
  | _ => false
  end.

(** [wait_exponential(multiplier=1, min=2, max=10)] after attempt
    number [n]: [max(2, min(1 * 2 ** (n - 1), 10))]. *)
Definition wait_exponential (n : nat) : Z :=
  Z.max 2 (Z.min (2 ^ (Z.of_nat n - 1)) 10).

(** Tenacity's attempt loop. [body n] is the decorated function run as
    attempt number [n]; [remaining] is the number of attempts the stop
    condition still allows. The result is the outcome, the number of
    the last attempt made, and the waits slept between attempts. After
    the last allowed attempt fails with a retryable exception tenacity
    raises [RetryError]. *)
Fixpoint tenacity_loop {A} (body : nat -> Result A) (attempt remaining : nat)
  : Result A * nat * list Z :=
  match body attempt with
  | Ok a => (Ok a, attempt, [])
  | Raise e =>
      if retryable e then
        match remaining with
        | O => (Raise RetryError, attempt, [])
        | S r =>
            let '(res, n, ws) := tenacity_loop body (S attempt) r in
            (res, n, wait_exponential attempt :: ws)
        end
      else (Raise e, attempt, [])
  end.

(** [stop=stop_after_attempt(3)]: attempts 1, 2 and 3. *)
Definition retry3 {A} (body : nat -> Result A) : Result (A) * nat * list Z :=
  tenacity_loop body 1 2.

(** The post loop of [search_subreddit]: records older than
    [six_months_ago] are skipped ([continue]); a failing
    [fromtimestamp] raises out of the call. *)
Fixpoint search_children (sub : string) (now threshold : Z)
    (cs : list RedditPostData) : Result (list TradePost) :=
  match cs with
  | [] => Ok []
  | pd :: rest =>
      match created_of pd with
      | Raise e => Raise e
      | Ok created_at =>
          if created_at <? threshold then search_children sub now threshold rest
          else
            match search_children sub now threshold rest with
            | Ok ps => Ok (reddit_trade_post sub now pd created_at :: ps)
            | Raise e => Raise e
            end
      end
  end.

(** The body of [RedditAPIClient.search_subreddit]. [authed] is the
    value of [self.access_token or self.authenticate()]; [resp] is the
    outcome of the GET request, [now] the [datetime.now()] of the call.
    The [try: ... except Exception: return []] turns every failure of
    the request into an empty result. *)
Definition search_subreddit_body (authed : bool) (sub : string) (now : Z)
    (resp : HttpOutcome Listing) : Result (list TradePost) :=
  if negb authed then Ok []
  else
    match resp with
    | HttpRaise _ => Ok []
    | HttpJson data => search_children sub now (now - days_180) (children data)
    end.

(** The decorated [search_subreddit]: attempt [n] sees the network
    outcome [net n]. *)
Definition search_subreddit (authed : bool) (sub : string) (now : Z)
    (net : nat -> HttpOutcome Listing) : Result (list TradePost) * nat * list Z :=
  retry3 (fun n => search_subreddit_body authed sub now (net n)).

(** The body of [SerpAPIClient.search]; [available] is
    [self.is_available()]. *)
Definition serp_search_body (available : bool) (now : Z)
    (resp : HttpOutcome SerpResponse) : Result (list TradePost) :=
  if negb available then Ok []
  else
    match resp with
    | HttpRaise _ => Ok []
    | HttpJson d =>
        match serp_error d with
        | Some _ => Ok []
        | None => Ok (map (serp_trade_post now) (organic_results d))
        end
    end.

(** The decorated [SerpAPIClient.search]. *)
Definition serp_search (available : bool) (now : Z)
    (net : nat -> HttpOutcome SerpResponse) : Result (list TradePost) * nat * list Z :=
  retry3 (fun n => serp_search_body available now (net n)).

End Search.

(* ================================================================= *)
(** ** [RedditAPIClient.get_posts_paginated] *)

Module Paginated.

Import Model.

Section Fetcher.

(** The subreddit, the [limit], [max_pages] and [min_date] arguments,
    and the clock reading used for [scraped_at]. *)
Variable sub : string.
Variable limit max_pages : Z.
Variable min_date : option Z.
Variable now : Z.

(** The listing endpoint: the outcome of the request issued for page
    number [page] with cursor [after]. *)
Variable fetch : Z -> option string -> HttpOutcome Listing.

(** The [for post in children] loop. It returns the accumulated posts
    and [stop_pagination]; [True] is set on the date cutoff. *)
Fixpoint consume (cs : list RedditPostData) (acc : list TradePost)
  : Result (list TradePost * bool) :=
  match cs with
  | [] => Ok (acc, false)
  | pd :: rest =>
      match created_of pd with
      | Raise e => Raise e
      | Ok created_at =>
          (* [if min_date and created_at < min_date] *)
          let cutoff :=
            match min_date with Some d => created_at <? d | None => false end in
          if cutoff then Ok (acc, true)
          else
            let acc' := (acc ++ [reddit_trade_post sub now pd created_at])%list in
            if limit <=? Z.of_nat (length acc') then Ok (acc', false)
            else consume rest acc'
      end
  end.

(** The [while len(all_posts) < limit and page < max_pages] loop. The
    second component is the trace of requests issued, as
    [(page, after)] pairs. [fuel] only makes the recursion structural:
    it is started at [max_pages] and decreases with [page + 1], so when
    it runs out the loop guard [page < max_pages] is false too. *)
Fixpoint page_loop (fuel : nat) (page : Z) (cur : option string)
    (acc : list TradePost)
  : Result (list TradePost * option string) * list (Z * option string) :=
  match fuel with
  | O => (Ok (acc, cur), [])
  | S fuel' =>
      if (Z.of_nat (length acc) <? limit) && (page <? max_pages) then
        match fetch page cur with
        | HttpRaise _ => (Ok (acc, cur), [(page, cur)])
        | HttpJson data =>
            match children data with
            | [] => (Ok (acc, cur), [(page, cur)])
            | cs =>
                match consume cs acc with
                | Raise e => (Raise e, [(page, cur)])
                | Ok (acc', true) => (Ok (acc', cur), [(page, cur)])
                | Ok (acc', false) =>
                    if negb (truthy_str (after data)) then
                      (Ok (acc', after data), [(page, cur)])
                    else
                      let '(r, tr) := page_loop fuel' (page + 1) (after data) acc' in
                      (r, (page, cur) :: tr)
                end
            end
        end
      else (Ok (acc, cur), [])
  end.

(** [get_posts_paginated]; [authed] is [self.access_token or
    self.authenticate()]. *)
Definition get_posts_paginated (authed : bool)
  : Result (list TradePost * option string) * list (Z * option string) :=
  if negb authed then (Ok ([], None), [])
  else page_loop (Z.to_nat max_pages) 0 None [].

(** The records of the page requested at [(page, after)]. *)
Definition page_children (req : Z * option string) : list RedditPostData :=
  match fetch (fst req) (snd req) with
  | HttpRaise _ => []
  | HttpJson data => children data
  end.

End Fetcher.

End Paginated.

(* ================================================================= *)
(** ** [RedditAPIClient.authenticate] *)

Module Session.

Import Model.

(** JSON values as [response.json()] returns them; [JCompound ne] is a
    list or object, [ne] telling whether it is non-empty. *)
Inductive JValue :=
| JStr (s : string)
| JNum (z : Z)
| JNull
| JBool (b : bool)
| JCompound (nonempty : bool).

(** Python truthiness of a JSON value. *)
Definition truthy (j : JValue) : bool :=
  match j with
  | JStr s => negb (String.eqb s "")
  | JNum z => negb (z =? 0)
  | JNull => false
  | JBool b => b
  | JCompound ne => ne
  end.

(** The token response body: a JSON object (its fields, with distinct
    keys) or some other JSON value. *)
Inductive Json :=
| JObject (fields : list (string * JValue))
| JNonObject.

Fixpoint field (k : string) (fs : list (string * JValue)) : option JValue :=
  match fs with
  | [] => None
  | (k', v) :: fs' => if String.eqb k k' then Some v else field k fs'
  end.

(** The instance fields of [RedditAPIClient] used by [authenticate];
    [access_token = None] is Python's [None]. *)
Record Client := mkClient {
  app_id : option string;
  secret : option string;
  access_token : option JValue;
  token_expires_at : option Z
}.

(** [RedditAPIClient.__init__] *)
Definition init_client (app secret0 : option string) : Client :=
  mkClient app secret0 None None.

(** [is_available]: [bool(self.app_id and self.secret)] *)
Definition is_available (c : Client) : bool :=
  truthy_str (app_id c) && truthy_str (secret c).

Definition token_truthy (c : Client) : bool :=
  match access_token c with Some j => truthy j | None => false end.

(** [datetime.now() + timedelta(seconds=s)], raising [OverflowError]
    out of the [datetime] range. *)
Definition add_seconds (now s : Z) : Result Z :=
  let d := now + s in
  if (d <? datetime_min) || (datetime_max <? d) then Raise OverflowError
  else Ok d.

(** The [try] block of [authenticate] after the request. It returns
    the outcome and the client state it leaves: the token is stored
    before the expiry is computed. *)
Definition exchange_body (c : Client) (resp : HttpOutcome Json) (now : Z)
  : Result unit * Client :=
  match resp with
  | HttpRaise e => (Raise e, c)
  | HttpJson JNonObject => (Raise TypeError, c)
  | HttpJson (JObject fs) =>
      match field "access_token" fs with
      | None => (Raise KeyError, c)
      | Some tok =>
          let c1 := mkClient (app_id c) (secret c) (Some tok) (token_expires_at c) in
          (* [expires_in = token_data.get("expires_in", 3600)] *)
          let secs :=
            match default (JNum 3600) (field "expires_in" fs) with
            | JNum z => Ok (z - 60)
            | JBool b => Ok ((if b then 1 else 0) - 60)
            | _ => Raise TypeError
            end in
          match secs with
          | Raise e => (Raise e, c1)
          | Ok s =>
              match add_seconds now s with
              | Raise e => (Raise e, c1)
              | Ok exp =>
                  (Ok tt, mkClient (app_id c) (secret c) (Some tok) (Some exp))
              end
          end
      end
  end.

(** [authenticate]. [now_check] is the [datetime.now()] of the validity
    test, [now_set] the one of the expiry computation and [resp] the
    outcome of the token request. It returns the boolean result, the
    new client state and whether a token request was sent. Every
    exception of the [try] block is caught ([except Exception]). *)
Definition authenticate (c : Client) (now_check now_set : Z)
    (resp : HttpOutcome Json) : bool * Client * bool :=
  if negb (is_available c) then (false, c, false)
  else
    let cached :=
      if token_truthy c then
        match token_expires_at c with
        | Some exp => now_check <? exp
        | None => false
        end
      else false in
    if cached then (true, c, false)
    else
      match exchange_body c resp now_set with
      | (Ok _, c') => (true, c', true)
      | (Raise _, c') => (false, c', true)
      end.

End Session.

(* ================================================================= *)
(** ** [KpopTradeCollector.collect]: the stages after fetching *)

Module Collector.

Import Model.

(** [TRADE_KEYWORDS] *)
Definition TRADE_KEYWORDS : list string :=
  ["wts"; "wtb"; "wtt"; "trade"; "trading"; "selling"; "buying";
   "for sale"; "iso"; "양도"; "판매"; "구해"; "삽니다"; "팝니다"; "교환"].

(** [is_trade_post] *)
Definition is_trade_post (p : TradePost) : bool :=
  truthy_str (transaction_type p) ||
  let combined := lower (title p ++ " " ++ selftext p) in
  existsb (fun kw => containsb kw combined) TRADE_KEYWORDS.

(** [artist_aliases] *)
Definition artist_aliases : list (string * list string) :=
  [("seventeen", ["svt"; "세븐틴"; "sebong"]);
   ("bts", ["방탄소년단"; "bangtan"]);
   ("twice", ["트와이스"]);
   ("blackpink", ["블랙핑크"; "블핑"]);
   ("stray kids", ["skz"; "스트레이키즈"; "스키즈"]);
   ("newjeans", ["뉴진스"; "nj"]);
   ("aespa", ["에스파"]);
   ("nct", ["엔시티"]);
   ("exo", ["엑소"]);
   ("red velvet", ["레드벨벳"; "레벨"]);
   ("itzy", ["있지"]);
   ("txt", ["투모로우바이투게더"; "tomorrow x together"]);
   ("enhypen", ["엔하이픈"]);
   ("ive", ["아이브"]);
   ("le sserafim", ["르세라핌"])].

Fixpoint alias_lookup (k : string) (m : list (string * list string))
  : option (list string) :=
  match m with
  | [] => None
  | (k', v) :: m' => if String.eqb k k' then Some v else alias_lookup k m'
  end.

(** [contains_artist] *)
Definition contains_artist (p : TradePost) (artist : string) : bool :=
  let artist_lower := lower artist in
  let variants := artist_lower :: default [] (alias_lookup artist_lower artist_aliases) in
  let combined := lower (title p ++ " " ++ selftext p) in
  existsb (fun v => containsb v combined) variants.

(** [post.permalink.rstrip("/")] *)
Definition normalized_url (p : TradePost) : string :=
  rstrip_char "/" (permalink p).

(** The dedup loop; [seen] is [seen_urls]. *)
Fixpoint dedup_loop (seen : list string) (l : list TradePost) : list TradePost :=
  match l with
  | [] => []
  | p :: rest =>
      let u := normalized_url p in
      if existsb (String.eqb u) seen then dedup_loop seen rest
      else p :: dedup_loop (u :: seen) rest
  end.

Definition dedup (l : list TradePost) : list TradePost := dedup_loop [] l.

(** [key=lambda p: p.created_timestamp or datetime.min] *)
Definition sort_key (p : TradePost) : Z :=
  default datetime_min (created_timestamp p).

(** [list.sort(key=..., reverse=True)]: a stable sort by descending
    key (equal keys keep their input order). Insertion from the right:
    [x] precedes every later element whose key is not larger. *)
Fixpoint insert_desc (x : TradePost) (l : list TradePost) : list TradePost :=
  match l with
  | [] => [x]
  | y :: l' => if sort_key y <=? sort_key x then x :: l else y :: insert_desc x l'
  end.

Fixpoint sort_desc (l : list TradePost) : list TradePost :=
  match l with
  | [] => []
  | x :: l' => insert_desc x (sort_desc l')
  end.

(** [l[:n]] *)
Definition py_prefix {A} (n : Z) (l : list A) : list A :=
  if 0 <=? n then firstn (Z.to_nat n) l
  else firstn (Z.to_nat (Z.of_nat (length l) + n)) l.

(** Timestamps are well formed: a [created_timestamp] comes from
    [fromtimestamp] and is thus later than [datetime.min]. *)
Definition wf_post (p : TradePost) : Prop :=
  match created_timestamp p with
  | Some t => datetime_min < t
  | None => True
  end.

(** The stages of [collect] after the fetch: dedup, artist filter,
    trade filter, sort, truncation. *)
Definition finish (artist : option string) (limit : Z) (all_posts : list TradePost)
  : list TradePost :=
  let unique_posts := dedup all_posts in
  let artist_posts :=
    match artist with
    | Some a => if truthy_str artist then filter (fun p => contains_artist p a) unique_posts
                else unique_posts
    | None => unique_posts
    end in
  let trade_posts := filter is_trade_post artist_posts in
  let sorted := sort_desc trade_posts in
  if limit <? Z.of_nat (length sorted) then py_prefix limit sorted else sorted.

End Collector.

(* ================================================================= *)
(** ** The collectors, [collect], [save_to_jsonl] and [main] *)

Module Pipeline.

Import Model Collector.

(** [RedditAPIClient.get_new_posts]: one page, no date bound. *)
Definition get_new_posts (sub : string) (limit now : Z)
    (fetch : Z -> option string -> HttpOutcome Listing) (authed : bool)
  : Result (list TradePost) * list (Z * option string) :=
  let '(r, tr) := Paginated.get_posts_paginated sub limit 1 None now fetch authed in
  (match r with Ok (posts, _) => Ok posts | Raise e => Raise e end, tr).

(** [KpopTradeCollector.SUBREDDITS] *)
Definition SUBREDDITS : list string :=
  ["kpopforsale"; "kpopcollections"; "kpoptrade"; "adultkpopfans"].

(** [get_search_queries]: its ["reddit_api"] and ["serpapi"] lists. *)
Definition get_search_queries (artist : string) : list string * list string :=
  ([artist ++ " photocard"; artist ++ " pc"; artist ++ " WTS"; artist ++ " WTB";
    artist ++ " WTT"; artist ++ " trade"; artist ++ " selling"],
   ["WTS " ++ artist ++ " photocard"; "WTB " ++ artist ++ " photocard";
    "WTT " ++ artist ++ " photocard"; artist ++ " 포토카드 양도";
    "kpopforsale " ++ artist]).

(** The network-facing calls the collectors make, with their arguments. *)
Inductive Call :=
| CallPaginated (sub : string) (limit max_pages : Z) (min_date : option Z)
| CallSearch (sub query : string) (limit : Z)
| CallSerp (query language : string) (max_results : Z).

(** A [for x in xs: posts = f(x); all_posts.extend(posts)] loop: the
    accumulated posts (or the exception that escaped) and the calls
    made. *)
Fixpoint seq_calls {X} (call : X -> Call) (f : X -> Result (list TradePost))
    (xs : list X) : Result (list TradePost) * list Call :=
  match xs with
  | [] => (Ok [], [])
  | x :: rest =>
      match f x with
      | Raise e => (Raise e, [call x])
      | Ok ps =>
          let '(r, tr) := seq_calls call f rest in
          (match r with Ok ps' => Ok (ps ++ ps')%list | Raise e => Raise e end,
           call x :: tr)
      end
  end.

(** [datetime.now() - timedelta(days=days)], raising [OverflowError]
    out of the [datetime] range. *)
Definition sub_days (now days : Z) : Result Z :=
  let d := now - days * 86400 in
  if (d <? datetime_min) || (datetime_max <? d) then Raise OverflowError
  else Ok d.

Section Collectors.

(** [self.reddit.is_available()], the result of [self.reddit.authenticate()]
    and [self.serpapi.is_available()]. *)
Variable reddit_available reddit_auth serp_available : bool.

(** The callees, by their arguments: [get_posts_paginated(subreddit,
    limit, max_pages, min_date)], [search_subreddit(subreddit, query,
    limit)] and [SerpAPIClient.search(query, language, max_results)]. *)
Variable paginated : string -> Z -> Z -> option Z -> Result (list TradePost * option string).
Variable search : string -> string -> Z -> Result (list TradePost).
Variable serp : string -> string -> Z -> Result (list TradePost).

(** The [datetime.now()] of [collect_from_reddit_api]. *)
Variable now : Z.

(** [collect_from_reddit_api] *)
Definition collect_from_reddit_api (artist : option string) (limit max_pages months : Z)
  : Result (list TradePost) * list Call :=
  if negb reddit_available then (Ok [], [])
  else if negb reddit_auth then (Ok [], [])
  else
    match sub_days now (months * 30) with
    | Raise e => (Raise e, [])
    | Ok min_date =>
        let '(r1, tr1) :=
          seq_calls (fun s => CallPaginated s limit max_pages (Some min_date))
            (fun s => match paginated s limit max_pages (Some min_date) with
                      | Ok (posts, _) => Ok posts
                      | Raise e => Raise e
                      end) SUBREDDITS in
        match r1 with
        | Raise e => (Raise e, tr1)
        | Ok ps1 =>
            if truthy_str artist then
              let queries := fst (get_search_queries (default "" artist)) in
              let pairs := flat_map (fun s => map (fun q => (s, q)) (firstn 2 queries))
                             (firstn 2 SUBREDDITS) in
              let '(r2, tr2) :=
                seq_calls (fun '(s, q) => CallSearch s q 50)
                  (fun '(s, q) => search s q 50) pairs in
              (match r2 with Ok ps2 => Ok (ps1 ++ ps2)%list | Raise e => Raise e end,
               (tr1 ++ tr2)%list)
            else (Ok ps1, tr1)
        end
    end.

(** [collect_from_serpapi]; its [limit] argument is unused. *)
Definition collect_from_serpapi (artist : string) (limit : Z)
  : Result (list TradePost) * list Call :=
  if negb serp_available then (Ok [], [])
  else seq_calls (fun q => CallSerp q "en" 10) (fun q => serp q "en" 10)
         (snd (get_search_queries artist)).

(** [collect] *)
Definition collect (artist : option string) (limit : Z) (source : string)
    (max_pages months : Z) : Result (list TradePost) * list Call :=
  let '(r1, tr1) :=
    if (String.eqb source "both" || String.eqb source "reddit")%bool
    then collect_from_reddit_api artist limit max_pages months
    else (Ok [], []) in
  match r1 with
  | Raise e => (Raise e, tr1)
  | Ok reddit_posts =>
      let '(r2, tr2) :=
        if ((String.eqb source "both" || String.eqb source "serpapi") &&
            truthy_str artist)%bool
        then collect_from_serpapi (default "" artist) limit
        else (Ok [], []) in
      match r2 with
      | Raise e => (Raise e, (tr1 ++ tr2)%list)
      | Ok serp_posts =>
          (Ok (finish artist limit (reddit_posts ++ serp_posts)), (tr1 ++ tr2)%list)
      end
  end.

(** The argument check of [main]: [None] when it returns before
    collecting, otherwise the [artist] passed to [collect]. *)
Definition main_artist (all : bool) (artist : option string) : option (option string) :=
  if (negb all && negb (truthy_str artist))%bool then None
  else Some (if all then None else artist).

(** [main] up to the collection. *)
Definition main_collect (all : bool) (artist : option string) (limit : Z)
    (source : string) (pages months : Z) : option (Result (list TradePost) * list Call) :=
  match main_artist all artist with
  | None => None
  | Some a => Some (collect a limit source pages months)
  end.

End Collectors.

(** [sources[k] = sources.get(k, 0) + 1] on a dict kept in insertion
    order. *)
Fixpoint dict_incr (k : string) (d : list (string * Z)) : list (string * Z) :=
  match d with
  | [] => [(k, 1)]
  | (k', v) :: d' => if String.eqb k k' then (k', v + 1) :: d' else (k', v) :: dict_incr k d'
  end.

(** The [sources] dict of [main]. *)
Definition source_counts (posts : list TradePost) : list (string * Z) :=
  fold_left (fun d p => dict_incr (source p) d) posts [].

(** [sorted(items, key=lambda x: -x[1])], stable: an item goes before
    the first one with a larger key. *)
Fixpoint insert_by_count (x : string * Z) (l : list (string * Z)) : list (string * Z) :=
  match l with
  | [] => [x]
  | y :: l' => if - snd x <? - snd y then x :: l else y :: insert_by_count x l'
  end.

Definition source_stats (posts : list TradePost) : list (string * Z) :=
  fold_left (fun acc x => insert_by_count x acc) (source_counts posts) [].

(** [artist.lower().replace(" ", "_")] *)
Definition artist_safe (a : string) : string :=
  str_map (fun c => if Ascii.eqb c " " then "_"%char else c) (lower a).

(** [s.split("/")] *)
Fixpoint split_slash (s : string) : list string :=
  match s with
  | EmptyString => [EmptyString]
  | String c r =>
      if Ascii.eqb c "/" then EmptyString :: split_slash r
      else match split_slash r with
           | p :: ps => String c p :: ps
           | [] => [String c EmptyString]
           end
  end.

Fixpoint join_slash (ps : list string) : string :=
  match ps with
  | [] => EmptyString
  | [p] => p
  | p :: ps' => p ++ "/" ++ join_slash ps'
  end.

(** [str(PurePosixPath(s))]: the root is [//] for exactly two leading
    slashes, [/] for one or at least three; empty and [.] components
    are dropped; the empty path is [.]. *)
Definition posix_path (s : string) : string :=
  let root :=
    if prefixb "//" s && negb (prefixb "///" s) then "//"
    else if prefixb "/" s then "/" else "" in
  let parts := filter (fun p => negb (String.eqb p "") && negb (String.eqb p "."))
                 (split_slash s) in
  match root, parts with
  | "", [] => "."
  | _, _ => root ++ join_slash parts
  end.

(** [Path(base) / name]: an absolute [name] replaces [base]. *)
Definition path_div (base name : string) : string :=
  if prefixb "/" name then posix_path name else posix_path (base ++ "/" ++ name).

(** The [filename] of [save_to_jsonl]; [timestamp] is
    [datetime.now().strftime("%Y%m%d_%H%M")]. *)
Definition jsonl_filename (artist : option string) (timestamp : string) : string :=
  match artist with
  | Some a =>
      if truthy_str artist
      then path_div "data" (artist_safe a ++ "_trade_v2_" ++ timestamp ++ ".jsonl")
      else path_div "data" ("kpop_all_trade_" ++ timestamp ++ ".jsonl")
  | None => path_div "data" ("kpop_all_trade_" ++ timestamp ++ ".jsonl")
  end.

End Pipeline.

(* ================================================================= *)
(** * Proofs *)

(* ================================================================= *)
(** ** Title tags *)

Module TitleTagsProofs.

Import TitleTags.

Lemma prefixb_app (p1 p2 s : string) :
  prefixb (p1 ++ p2) s = true -> prefixb p1 s = true.
Proof.
  revert s; induction p1 as [|a p1 IH]; intros s H; [reflexivity|].
  destruct s as [|b s]; simpl in *; [discriminate|].
  apply andb_prop in H as [H1 H2]. rewrite H1, (IH _ H2). reflexivity.
Qed.

Lemma containsb_app (p1 p2 s : string) :
  containsb (p1 ++ p2) s = true -> containsb p1 s = true.
Proof.
  induction s as [|c s IH]; intros H; simpl in *.
  - rewrite orb_false_r in *. now rewrite (prefixb_app _ _ _ H).
  - apply orb_prop in H as [H|H].
    + now rewrite (prefixb_app _ _ _ H).
    + rewrite (IH H). apply orb_true_r.
Qed.

Lemma first_transaction_type_spec (tts : list string) (t r : string) :
  first_transaction_type tts t = Some r <->
  exists pre tok post,
    tts = (pre ++ tok :: post)%list /\
    Forall (fun x => containsb (lower x) (lower t) = false) pre /\
    containsb (lower tok) (lower t) = true /\
    r = upper tok.
Proof.
  induction tts as [|x tts IH]; simpl.
  - split; [discriminate|]. intros (pre & tok & post & E & _).
    destruct pre; discriminate.
  - destruct (containsb (lower x) (lower t)) eqn:Ex.
    + split.
      * intros H; injection H as <-. exists [], x, tts. auto.
      * intros (pre & tok & post & E & Hpre & Htok & ->).
        destruct pre as [|y pre]; simpl in E; injection E as E1 E2.
        -- now subst.
        -- subst y. inversion Hpre; congruence.
    + rewrite IH. split.
      * intros (pre & tok & post & E & Hpre & Htok & ->).
        exists (x :: pre), tok, post. subst. auto.
      * intros (pre & tok & post & E & Hpre & Htok & ->).
        destruct pre as [|y pre]; simpl in E; injection E as E1 E2.
        -- congruence.
        -- subst. inversion Hpre; subst. exists pre, tok, post. auto.
Qed.

Lemma first_country_spec (ms : list string) (c : string) :
  first_country ms = Some c <->
  exists pre m post,
    ms = (pre ++ m :: post)%list /\
    Forall (fun x => country_lookup (strip x) = None) pre /\
    country_lookup (strip m) = Some c.
Proof.
  induction ms as [|x ms IH]; simpl.
  - split; [discriminate|]. intros (pre & m & post & E & _).
    destruct pre; discriminate.
  - destruct (country_lookup (strip x)) as [c'|] eqn:Ex.
    + split.
      * intros H; injection H as <-. exists [], x, ms. auto.
      * intros (pre & m & post & E & Hpre & Hm).
        destruct pre as [|y pre]; simpl in E; injection E as E1 E2.
        -- congruence.
        -- subst y. inversion Hpre; congruence.
    + rewrite IH. split.
      * intros (pre & m & post & E & Hpre & Hm).
        exists (x :: pre), m, post. subst. auto.
      * intros (pre & m & post & E & Hpre & Hm).
        destruct pre as [|y pre]; simpl in E; injection E as E1 E2.
        -- congruence.
        -- subst. inversion Hpre; subst. exists pre, m, post. auto.
Qed.

(** C3 (amended): the transaction type is the upper-cased first token
    of [WTS, WTB, WTT, WTT/WTS, WTS/WTT, ISO] that is a case-insensitive
    substring of the title; the region is the table value of the first
    bracketed segment of the upper-cased title which, once stripped of
    surrounding whitespace, is a key of the country table;
    "[WTS][USA] Seventeen photocard" gives (WTS, USA) and
    "[Canada] selling NCT set" gives (None, CAN). *)
Theorem parse_title_tags_spec :
  (forall t r,
     fst (parse_title_tags t) = Some r <->
     exists pre tok post,
       transaction_types = (pre ++ tok :: post)%list /\
       Forall (fun x => containsb (lower x) (lower t) = false) pre /\
       containsb (lower tok) (lower t) = true /\
       r = upper tok) /\
  (forall t c,
     snd (parse_title_tags t) = Some c <->
     exists pre m post,
       bracket_segments (upper t) = (pre ++ m :: post)%list /\
       Forall (fun x => country_lookup (strip x) = None) pre /\
       country_lookup (strip m) = Some c) /\
  parse_title_tags "[WTS][USA] Seventeen photocard" = (Some "WTS", Some "USA") /\
  parse_title_tags "[Canada] selling NCT set" = (None, Some "CAN").
Proof.
  split; [|split; [|split]].
  - intros t r. apply first_transaction_type_spec.
  - intros t c. apply first_country_spec.
  - reflexivity.
  - reflexivity.
Qed.

(** C3 (counterexample): in "[ US ] card" the only bracketed segment,
    " US ", is not a key of the country table, yet the parser returns
    the region USA: segments are whitespace-stripped before lookup. *)
Lemma parse_title_tags_strip_cex :
  bracket_segments (upper "[ US ] card") = [" US "] /\
  country_lookup " US " = None /\
  snd (parse_title_tags "[ US ] card") = Some "USA".
Proof. repeat split; reflexivity. Qed.

(** C10: the transaction type is [None] or one of WTS, WTB, WTT, ISO;
    the compound tokens are never returned, since each contains an
    earlier simple token. *)
Theorem transaction_type_simple (t : string) :
  fst (parse_title_tags t) = None \/
  In (fst (parse_title_tags t)) [Some "WTS"; Some "WTB"; Some "WTT"; Some "ISO"].
Proof.
  unfold parse_title_tags, transaction_types; simpl fst.
  cbn [first_transaction_type].
  destruct (containsb (lower "WTS") (lower t)) eqn:E1; [right; now left|].
  destruct (containsb (lower "WTB") (lower t)) eqn:E2; [right; right; now left|].
  destruct (containsb (lower "WTT") (lower t)) eqn:E3;
    [right; right; right; now left|].
  destruct (containsb (lower "WTT/WTS") (lower t)) eqn:E4.
  { exfalso. change (lower "WTT/WTS") with ("wtt" ++ "/wts")%string in E4.
    apply containsb_app in E4. change (lower "WTT") with "wtt" in E3.
    congruence. }
  destruct (containsb (lower "WTS/WTT") (lower t)) eqn:E5.
  { exfalso. change (lower "WTS/WTT") with ("wts" ++ "/wtt")%string in E5.
    apply containsb_app in E5. change (lower "WTS") with "wts" in E1.
    congruence. }
  destruct (containsb (lower "ISO") (lower t)) eqn:E6;
    [right; right; right; right; now left|].
  now left.
Qed.

End TitleTagsProofs.

(* ================================================================= *)
(** ** Retry, search calls and normalisation *)

Module SearchProofs.

Import Model Search.

(** What the decorator does with a body that keeps raising a
    transient error: three attempts, waits of 2s and 2s, then
    [RetryError]. *)
Lemma tenacity_raising_body :
  retry3 (fun _ => @Raise (list TradePost) ReqConnectionError)
  = (Raise RetryError, 3%nat, [2; 2]).
Proof. reflexivity. Qed.

(** C1 (code_bug): when every request of [search_subreddit] or of
    [SerpAPIClient.search] raises, the body's [except Exception]
    returns [[]], so the retry decorator sees a normal return: one
    attempt, no wait. *)
Theorem search_calls_single_attempt (authed available : bool) (sub : string)
    (now : Z) (e : Exn) :
  search_subreddit authed sub now (fun _ => HttpRaise e) = (Ok [], 1%nat, []) /\
  serp_search available now (fun _ => HttpRaise e) = (Ok [], 1%nat, []).
Proof.
  split; unfold search_subreddit, serp_search, retry3;
    [destruct authed | destruct available]; reflexivity.
Qed.

(** A value returned by the decorated call was returned by one of its
    attempts. *)
Lemma tenacity_loop_ok {A} (P : A -> Prop) (body : nat -> Result A) :
  (forall n a, body n = Ok a -> P a) ->
  forall rem att,
  match fst (fst (tenacity_loop body att rem)) with
  | Ok a => P a
  | Raise _ => True
  end.
Proof.
  intros Hb rem; induction rem as [|rem IH]; intros att; simpl;
    destruct (body att) as [a|e] eqn:E; simpl; eauto;
    destruct (retryable e); simpl; auto.
  specialize (IH (S att)).
  destruct (tenacity_loop body (S att) rem) as [[r n] ws]; exact IH.
Qed.

Lemma search_children_recent (sub : string) (now threshold : Z) cs :
  match search_children sub now threshold cs with
  | Ok ps => Forall (fun p => exists t, created_timestamp p = Some t /\ threshold <= t) ps
  | Raise _ => True
  end.
Proof.
  induction cs as [|pd cs IH]; simpl; auto.
  destruct (created_of pd) as [c|e]; auto.
  destruct (c <? threshold) eqn:E; auto.
  destruct (search_children sub now threshold cs); auto.
  constructor; auto. exists c. split; [reflexivity|]. apply Z.ltb_ge; exact E.
Qed.

(** C9: every record returned by the feed search has a timestamp no
    older than 180 days before the clock reading of the call, whatever
    the server returns on each attempt. *)
Theorem search_subreddit_within_180_days (authed : bool) (sub : string)
    (now : Z) (net : nat -> HttpOutcome Listing) :
  match fst (fst (search_subreddit authed sub now net)) with
  | Ok ps => Forall (fun p => exists t, created_timestamp p = Some t /\
                                      now - days_180 <= t) ps
  | Raise _ => True
  end.
Proof.
  unfold search_subreddit, retry3. apply tenacity_loop_ok.
  intros n ps. unfold search_subreddit_body.
  destruct authed; simpl; [|intros H; injection H as <-; constructor].
  destruct (net n) as [e|data]; [intros H; injection H as <-; constructor|].
  intros H. pose proof (search_children_recent sub now (now - days_180) (children data)) as R.
  rewrite H in R. exact R.
Qed.

End SearchProofs.

(* ================================================================= *)
(** ** Deduplication *)

Module DedupProofs.

Import Model Collector.

Lemma existsb_eqb_In (u : string) (seen : list string) :
  existsb (String.eqb u) seen = true <-> In u seen.
Proof.
  rewrite existsb_exists. split.
  - intros (x & Hx & E). apply String.eqb_eq in E. now subst.
  - intros H. exists u. split; [exact H|]. apply String.eqb_refl.
Qed.

(** Only the membership of [seen] matters. *)
Lemma dedup_loop_seen_ext (s1 s2 : list string) (l : list TradePost) :
  (forall u, In u s1 <-> In u s2) -> dedup_loop s1 l = dedup_loop s2 l.
Proof.
  revert s1 s2; induction l as [|p l IH]; intros s1 s2 Hs; simpl; auto.
  destruct (existsb (String.eqb (normalized_url p)) s1) eqn:E1;
  destruct (existsb (String.eqb (normalized_url p)) s2) eqn:E2.
  - apply IH; exact Hs.
  - apply existsb_eqb_In, Hs, existsb_eqb_In in E1. congruence.
  - apply existsb_eqb_In, Hs, existsb_eqb_In in E2. congruence.
  - f_equal. apply IH. intros u. simpl. rewrite Hs. tauto.
Qed.

Lemma dedup_loop_app (seen : list string) (l1 l2 : list TradePost) :
  exists seen',
    (forall u, In u seen' <-> In u seen \/ In u (map normalized_url l1)) /\
    dedup_loop seen (l1 ++ l2)%list = (dedup_loop seen l1 ++ dedup_loop seen' l2)%list.
Proof.
  revert seen; induction l1 as [|p l1 IH]; intros seen; simpl.
  - exists seen. split; [tauto|reflexivity].
  - destruct (existsb (String.eqb (normalized_url p)) seen) eqn:E.
    + destruct (IH seen) as (s' & Hs & Heq). exists s'. split; [|exact Heq].
      intros u. rewrite Hs. apply existsb_eqb_In in E. split; [tauto|].
      intros [H|[H|H]]; auto. subst. auto.
    + destruct (IH (normalized_url p :: seen)) as (s' & Hs & Heq).
      exists s'. split; [|rewrite Heq; reflexivity].
      intros u. rewrite Hs. simpl. tauto.
Qed.

(** The URLs of the kept records are pairwise distinct and not in
    [seen]. *)
Lemma dedup_loop_fresh (seen : list string) (l : list TradePost) :
  NoDup (map normalized_url (dedup_loop seen l)) /\
  forall u, In u (map normalized_url (dedup_loop seen l)) -> ~ In u seen.
Proof.
  revert seen; induction l as [|p l IH]; intros seen; simpl.
  - split; [constructor|tauto].
  - destruct (existsb (String.eqb (normalized_url p)) seen) eqn:E; auto.
    destruct (IH (normalized_url p :: seen)) as [Hnd Hfr]. simpl. split.
    + constructor; [|exact Hnd]. intros Hin. apply (Hfr _ Hin). now left.
    + intros u [<-|Hu].
      * intros Hin. apply existsb_eqb_In in Hin. congruence.
      * intros Hin. apply (Hfr _ Hu). now right.
Qed.

Lemma dedup_loop_id (seen : list string) (l : list TradePost) :
  NoDup (map normalized_url l) ->
  (forall u, In u (map normalized_url l) -> ~ In u seen) ->
  dedup_loop seen l = l.
Proof.
  revert seen; induction l as [|p l IH]; intros seen Hnd Hfr; simpl; auto.
  inversion Hnd as [|? ? Hnin Hnd']; subst.
  destruct (existsb (String.eqb (normalized_url p)) seen) eqn:E.
  - apply existsb_eqb_In in E. exfalso. apply (Hfr (normalized_url p)); simpl; auto.
  - f_equal. apply IH; auto. intros u Hu [<-|Hs]; [contradiction|].
    apply (Hfr u); simpl; auto.
Qed.

Lemma dedup_loop_incl (seen : list string) (l : list TradePost) p :
  In p (dedup_loop seen l) -> In p l.
Proof.
  revert seen; induction l as [|q l IH]; intros seen; simpl; auto.
  destruct (existsb _ seen); [intros H; right; eauto|].
  intros [<-|H]; [now left|right; eauto].
Qed.

Lemma dedup_loop_covers (seen : list string) (l : list TradePost) p :
  In p l ->
  In (normalized_url p) seen \/
  exists q, In q (dedup_loop seen l) /\ normalized_url q = normalized_url p.
Proof.
  revert seen; induction l as [|q l IH]; intros seen Hin; [destruct Hin|].
  simpl. destruct (existsb (String.eqb (normalized_url q)) seen) eqn:E.
  - destruct Hin as [<-|Hin].
    + left. now apply existsb_eqb_In.
    + apply IH; exact Hin.
  - destruct Hin as [<-|Hin].
    + right. exists q. split; [now left|reflexivity].
    + destruct (IH (normalized_url q :: seen) Hin) as [[E'|H]|(r & Hr & Er)].
      * right. exists q. split; [now left|exact E'].
      * now left.
      * right. exists r. split; [now right|exact Er].
Qed.

(** C6: the dedup stage keeps a record iff its canonical URL
    ([permalink.rstrip("/")]) does not occur among the earlier input
    records, in input order: appending a record to the input appends it
    to the output exactly when its URL is new. Consequently it is
    idempotent, its output has unique canonical URLs, and every
    canonical URL of the input is represented. *)
Theorem dedup_first_seen :
  dedup [] = [] /\
  (forall l p,
     dedup (l ++ [p])%list =
     (dedup l ++ (if existsb (String.eqb (normalized_url p)) (map normalized_url l)
                  then [] else [p]))%list) /\
  (forall l, dedup (dedup l) = dedup l) /\
  (forall l, NoDup (map normalized_url (dedup l))) /\
  (forall l p, In p l -> exists q, In q (dedup l) /\ normalized_url q = normalized_url p).
Proof.
  split; [reflexivity|]. split; [|split; [|split]].
  - intros l p. unfold dedup.
    destruct (dedup_loop_app [] l [p]) as (s' & Hs & ->). f_equal. simpl.
    destruct (existsb (String.eqb (normalized_url p)) s') eqn:E1;
    destruct (existsb (String.eqb (normalized_url p)) (map normalized_url l)) eqn:E2;
      auto.
    + apply existsb_eqb_In, Hs in E1. destruct E1 as [[]|E1].
      apply existsb_eqb_In in E1. congruence.
    + apply existsb_eqb_In in E2. assert (In (normalized_url p) s') as E3
        by (apply Hs; auto).
      apply existsb_eqb_In in E3. congruence.
  - intros l. unfold dedup. destruct (dedup_loop_fresh [] l) as [Hnd _].
    apply dedup_loop_id; auto.
  - intros l. apply dedup_loop_fresh.
  - intros l p Hin. destruct (dedup_loop_covers [] l p Hin) as [[]|H]. exact H.
Qed.

End DedupProofs.

(* ================================================================= *)
(** ** Ranking, truncation and record contents *)

Module RankProofs.

Import Model Collector.

Definition ranked (a b : TradePost) : Prop := sort_key b <= sort_key a.

Lemma insert_desc_In (x p : TradePost) (l : list TradePost) :
  In p (insert_desc x l) <-> x = p \/ In p l.
Proof.
  induction l as [|y l IH]; simpl.
  - split; [intros [<-|[]]; auto|intros [<-|[]]; auto].
  - destruct (sort_key y <=? sort_key x); simpl; [tauto|].
    rewrite IH. tauto.
Qed.

Lemma sort_desc_In (p : TradePost) (l : list TradePost) :
  In p (sort_desc l) <-> In p l.
Proof.
  induction l as [|x l IH]; simpl; [tauto|].
  rewrite insert_desc_In, IH. tauto.
Qed.

Lemma insert_desc_sorted (x : TradePost) (l : list TradePost) :
  StronglySorted ranked l -> StronglySorted ranked (insert_desc x l).
Proof.
  induction l as [|y l IH]; intros Hs; simpl.
  - repeat constructor.
  - inversion Hs as [|? ? Hs' Hy]; subst.
    destruct (sort_key y <=? sort_key x) eqn:E.
    + apply Z.leb_le in E. constructor; [exact Hs|].
      constructor; [exact E|].
      eapply Forall_impl; [|exact Hy]. unfold ranked. intros a Ha; lia.
    + apply Z.leb_gt in E. constructor; [now apply IH|].
      apply Forall_forall. intros a Ha. apply insert_desc_In in Ha as [<-|Ha].
      * unfold ranked; lia.
      * eapply Forall_forall in Hy; [exact Hy|exact Ha].
Qed.

Lemma sort_desc_sorted (l : list TradePost) : StronglySorted ranked (sort_desc l).
Proof.
  induction l as [|x l IH]; simpl; [constructor|]. now apply insert_desc_sorted.
Qed.

Lemma In_firstn_incl {A} (n : nat) (l : list A) (x : A) : In x (firstn n l) -> In x l.
Proof. intros H. rewrite <- (firstn_skipn n l). apply in_or_app; now left. Qed.

Lemma firstn_sorted (n : nat) (l : list TradePost) :
  StronglySorted ranked l -> StronglySorted ranked (firstn n l).
Proof.
  revert l; induction n as [|n IH]; intros l Hs; simpl; [constructor|].
  destruct l as [|x l]; [constructor|]. inversion Hs; subst. constructor.
  - now apply IH.
  - apply Forall_forall. intros a Ha.
    eapply Forall_forall; [eassumption|]. eapply In_firstn_incl; exact Ha.
Qed.

Lemma finish_sorted (artist : option string) (limit : Z) (l : list TradePost) :
  StronglySorted ranked (finish artist limit l).
Proof.
  unfold finish. set (s := sort_desc _).
  assert (StronglySorted ranked s) by apply sort_desc_sorted.
  destruct (limit <? Z.of_nat (length s)); [|assumption].
  unfold py_prefix. destruct (0 <=? limit); now apply firstn_sorted.
Qed.

(** Every output record of the post-fetch stages is an input record,
    unchanged. *)
Lemma finish_incl (artist : option string) (limit : Z) (l : list TradePost) p :
  In p (finish artist limit l) -> In p l.
Proof.
  unfold finish. intros H.
  assert (Hs : In p (sort_desc (filter is_trade_post
            (match artist with
             | Some a => if truthy_str artist
                         then filter (fun p => contains_artist p a) (dedup l)
                         else dedup l
             | None => dedup l end)))).
  { destruct (limit <? _); [|exact H].
    unfold py_prefix in H. destruct (0 <=? limit); eapply In_firstn_incl; exact H. }
  apply sort_desc_In, filter_In in Hs as [Hs _].
  apply (DedupProofs.dedup_loop_incl []).
  destruct artist as [a|]; [destruct (truthy_str (Some a))|]; auto.
  apply filter_In in Hs; tauto.
Qed.

Lemma strongly_sorted_nth {A} (R : A -> A -> Prop) (l : list A) :
  StronglySorted R l ->
  forall i j a b, (i < j)%nat -> nth_error l i = Some a -> nth_error l j = Some b -> R a b.
Proof.
  induction 1 as [|x l Hs IH Hx]; intros i j a b Hij Ha Hb.
  - destruct i; discriminate.
  - destruct j as [|j]; [lia|]. destruct i as [|i]; simpl in *.
    + injection Ha as <-. eapply Forall_forall; [exact Hx|].
      eapply nth_error_In; exact Hb.
    + apply (IH i j); auto; lia.
Qed.

(** Records built by the normalisers have well-formed timestamps. *)
Lemma normalised_wf :
  (forall sub now pd c, created_of pd = Ok c -> wf_post (reddit_trade_post sub now pd c)) /\
  (forall now item, wf_post (serp_trade_post now item)).
Proof.
  split.
  - intros sub now pd c H. unfold created_of, fromtimestamp in H.
    destruct (_ || _) eqn:E; [discriminate|]. injection H as <-.
    apply orb_false_iff in E as [E _]. apply Z.ltb_ge in E.
    unfold wf_post, reddit_trade_post. destruct (TitleTags.parse_title_tags _).
    simpl. unfold datetime_min. lia.
  - intros now item. unfold wf_post, serp_trade_post.
    destruct (TitleTags.parse_title_tags _). exact I.
Qed.

(** C7: in the final output, of two timestamped records the earlier
    position holds the timestamp that is not smaller, and a record
    without timestamp is never followed by a timestamped one. *)
Theorem finish_ranked (artist : option string) (limit : Z) (l : list TradePost)
    (Hwf : Forall wf_post l) :
  forall i j a b, (i < j)%nat ->
  nth_error (finish artist limit l) i = Some a ->
  nth_error (finish artist limit l) j = Some b ->
  (forall ta tb, created_timestamp a = Some ta -> created_timestamp b = Some tb ->
     tb <= ta) /\
  (created_timestamp a = None -> created_timestamp b = None).
Proof.
  intros i j a b Hij Ha Hb.
  pose proof (strongly_sorted_nth _ _ (finish_sorted artist limit l) i j a b Hij Ha Hb)
    as R.
  unfold ranked, sort_key in R. split.
  - intros ta tb Ea Eb. rewrite Ea, Eb in R. exact R.
  - intros Ea. destruct (created_timestamp b) as [tb|] eqn:Eb; [|reflexivity].
    exfalso. assert (Hb' : wf_post b).
    { eapply Forall_forall; [exact Hwf|]. eapply finish_incl.
      eapply nth_error_In; exact Hb. }
    unfold wf_post in Hb'. rewrite Eb in Hb'. rewrite Ea in R. simpl in R.
    lia.
Qed.

End RankProofs.

(* ================================================================= *)
(** ** Record contents and ranking on concrete records *)

Module ContentProofs.

Import Model Collector RankProofs.

(** C7 witness: a search-engine record (no timestamp) listed before a
    feed record; both are well formed. *)
Lemma finish_ranked_witness :
  let l := [serp_trade_post 0 (mkSerpItem (Some "[WTS] svt pc")
                                 (Some "https://reddit.com/r/kpopforsale/1") None);
            reddit_trade_post "kpopforsale" 0
              (mkRedditPostData (Some 1700000000) (Some "[WTB] svt pc") None None None
                 None None None (Some "/r/kpopforsale/2/") None false None None None)
              (1700000000 + epoch)] in
  Forall wf_post l /\
  (forall i j a b, (i < j)%nat ->
     nth_error (finish None 10 l) i = Some a ->
     nth_error (finish None 10 l) j = Some b ->
     (forall ta tb, created_timestamp a = Some ta -> created_timestamp b = Some tb ->
        tb <= ta) /\
     (created_timestamp a = None -> created_timestamp b = None)).
Proof.
  intros l.
  assert (H : Forall wf_post l).
  { constructor; [exact I|]. constructor; [|constructor].
    unfold wf_post; simpl; unfold datetime_min, epoch; lia. }
  split; [exact H|exact (finish_ranked None 10 l H)].
Defined.

(** C2 (amended): the body text of a record is the payload's
    [selftext] (feed records) or [snippet] (search-engine records)
    verbatim, [""] when absent; the post-fetch stages only select and
    reorder records, so no stage truncates it. *)
Theorem selftext_verbatim :
  (forall sub now pd c,
     selftext (reddit_trade_post sub now pd c) = default "" (rp_selftext pd)) /\
  (forall now item, selftext (serp_trade_post now item) = default "" (si_snippet item)) /\
  (forall artist limit l p, In p (finish artist limit l) -> In p l).
Proof.
  split; [|split].
  - intros sub now pd c. unfold reddit_trade_post.
    destruct (TitleTags.parse_title_tags _). reflexivity.
  - intros now item. unfold serp_trade_post.
    destruct (TitleTags.parse_title_tags _). reflexivity.
  - exact finish_incl.
Qed.

(** C2 (counterexample): a feed post whose selftext has 501 characters
    goes through the search call and all post-fetch stages with its
    501 characters. *)
Lemma selftext_501_cex :
  match Search.search_subreddit_body true "kpopforsale" (1700000000 + epoch)
          (HttpJson (mkListing
             [mkRedditPostData (Some 1700000000) (Some "[WTS] svt photocard") None None
                None None None (Some (string_of_list_ascii (repeat "a"%char 501)))
                (Some "/r/kpopforsale/comments/x/") None false None None None]
             None)) with
  | Ok [p] => finish None 500 [p] = [p] /\ String.length (selftext p) = 501%nat
  | _ => False
  end.
Proof. vm_compute. split; reflexivity. Qed.

End ContentProofs.

(* ================================================================= *)
(** ** Pagination *)

Module PaginatedProofs.

Import Model Paginated.

Section Loop.

Variable sub : string.
Variable limit max_pages : Z.
Variable min_date : option Z.
Variable now : Z.
Variable fetch : Z -> option string -> HttpOutcome Listing.

Definition not_cut (c : Z) : Prop :=
  match min_date with Some d => d <= c | None => True end.

(** A raw record and the post built from it, the record being kept. *)
Definition kept (pd : RedditPostData) (p : TradePost) : Prop :=
  exists c, created_of pd = Ok c /\ not_cut c /\ p = reddit_trade_post sub now pd c.

Definition stream (tr : list (Z * option string)) : list RedditPostData :=
  concat (map (page_children fetch) tr).

Lemma consume_spec (cs : list RedditPostData) (acc acc' : list TradePost) (stop : bool) :
  consume sub limit min_date now cs acc = Ok (acc', stop) ->
  exists k ps,
    acc' = (acc ++ ps)%list /\
    Forall2 kept (firstn k cs) ps /\
    (stop = true -> exists pd c d, min_date = Some d /\ nth_error cs k = Some pd /\
                                  created_of pd = Ok c /\ c < d) /\
    (stop = false -> k = length cs \/ limit <= Z.of_nat (length acc')).
Proof.
  revert acc; induction cs as [|pd cs IH]; intros acc H; simpl in H.
  - injection H as <- <-. exists 0%nat, []. rewrite app_nil_r.
    split; [reflexivity|]. split; [constructor|]. split; [discriminate|].
    intros _; now left.
  - destruct (created_of pd) as [c|e] eqn:Ec; [|discriminate].
    destruct (match min_date with Some d => c <? d | None => false end) eqn:Ecut.
    + injection H as <- <-. exists 0%nat, []. rewrite app_nil_r.
      split; [reflexivity|]. split; [constructor|]. split; [|discriminate].
      intros _. destruct min_date as [d|]; [|discriminate].
      exists pd, c, d. split; [reflexivity|]. split; [reflexivity|].
      split; [exact Ec|]. now apply Z.ltb_lt.
    + assert (Hk : kept pd (reddit_trade_post sub now pd c)).
      { exists c. split; [exact Ec|]. split; [|reflexivity]. unfold not_cut.
        destruct min_date as [d|]; [apply Z.ltb_ge; exact Ecut|exact I]. }
      destruct (limit <=? _) eqn:El.
      * injection H as <- <-. exists 1%nat, [reddit_trade_post sub now pd c].
        split; [reflexivity|]. split; [simpl; constructor; auto|].
        split; [discriminate|]. intros _. right. apply Z.leb_le; exact El.
      * destruct (IH _ H) as (k & ps & -> & Hf & Hs1 & Hs2).
        exists (S k), (reddit_trade_post sub now pd c :: ps).
        rewrite <- app_assoc. split; [reflexivity|].
        split; [simpl; constructor; auto|]. split; [exact Hs1|].
        intros Hs. destruct (Hs2 Hs) as [->|H2]; [left; reflexivity|right; now rewrite app_assoc].
Qed.

Lemma consume_len (cs : list RedditPostData) (acc acc' : list TradePost) (stop : bool) :
  consume sub limit min_date now cs acc = Ok (acc', stop) ->
  Z.of_nat (length acc) < limit -> Z.of_nat (length acc') <= limit.
Proof.
  revert acc; induction cs as [|pd cs IH]; intros acc H Hl; simpl in H.
  - injection H as <- <-. lia.
  - destruct (created_of pd) as [c|e]; [|discriminate].
    destruct (match min_date with Some d => c <? d | None => false end).
    + injection H as <- <-. lia.
    + rewrite length_app in *; simpl in *.
      destruct (limit <=? _) eqn:El.
      * injection H as <- <-. rewrite length_app; simpl. lia.
      * apply Z.leb_gt in El. apply (IH _ H). rewrite length_app; simpl. lia.
Qed.

(** Case analysis on the branches of one iteration of [page_loop]
    unfolded in [H]: guard [G], request [F], page [C], record loop
    [Cs], cursor test [T] and the next iteration [Rec]. *)
Ltac loop_cases H :=
  cbn [page_loop] in H;
  match type of H with
  | context [ (Z.of_nat (length ?acc) <? limit) && (?pg <? max_pages) ] =>
      let G := fresh "G" in
      destruct ((Z.of_nat (length acc) <? limit) && (pg <? max_pages)) eqn:G;
      [ let F := fresh "F" in let e := fresh "e" in let data := fresh "data" in
        destruct (fetch pg _) as [e|data] eqn:F;
        [ | let C := fresh "C" in let pd0 := fresh "pd0" in let cs0 := fresh "cs0" in
            destruct (children data) as [|pd0 cs0] eqn:C;
            [ | let Cs := fresh "Cs" in let acc' := fresh "acc'" in let e' := fresh "e'" in
                destruct (consume sub limit min_date now (pd0 :: cs0) acc)
                  as [[acc' [|]]|e'] eqn:Cs;
                [ | let T := fresh "T" in
                    destruct (negb (truthy_str (after data))) eqn:T;
                    [ | let Rec := fresh "Rec" in
                        match type of H with
                        | context [page_loop sub limit max_pages min_date now fetch ?f
                                     (pg + 1) (after data) acc'] =>
                            destruct (page_loop sub limit max_pages min_date now fetch f
                                        (pg + 1) (after data) acc') eqn:Rec
                        end ]
                | ] ] ]
      | ]
  end.

Lemma page_loop_guard (fuel : nat) (page : Z) (cur : option string) acc r tr :
  page_loop sub limit max_pages min_date now fetch fuel page cur acc = (r, tr) ->
  tr <> [] -> Z.of_nat (length acc) < limit /\ page < max_pages.
Proof.
  destruct fuel as [|fuel]; intros H Hne; simpl in H.
  - injection H as _ <-. congruence.
  - destruct ((Z.of_nat (length acc) <? limit) && (page <? max_pages)) eqn:G.
    + apply andb_prop in G as [G1 G2]. split; [apply Z.ltb_lt; exact G1|apply Z.ltb_lt; exact G2].
    + injection H as _ <-. congruence.
Qed.

Lemma page_loop_len (fuel : nat) (page : Z) (cur : option string) acc posts c' tr :
  page_loop sub limit max_pages min_date now fetch fuel page cur acc = (Ok (posts, c'), tr) ->
  Z.of_nat (length acc) <= Z.max 0 limit -> Z.of_nat (length posts) <= Z.max 0 limit.
Proof.
  revert page cur acc tr; induction fuel as [|fuel IH]; intros page cur acc tr H Hacc;
    [injection H as <- _ _; exact Hacc|].
  loop_cases H; try (injection H as <- _ _; exact Hacc).
  - (* date cutoff *)
    injection H as <- _ _. apply andb_prop in G as [G _]. apply Z.ltb_lt in G.
    pose proof (consume_len _ _ _ _ Cs G). lia.
  - (* no next cursor *)
    injection H as <- _ _. apply andb_prop in G as [G _]. apply Z.ltb_lt in G.
    pose proof (consume_len _ _ _ _ Cs G). lia.
  - (* next page *)
    injection H as -> _. eapply IH; [exact Rec|].
    apply andb_prop in G as [G _]. apply Z.ltb_lt in G.
    pose proof (consume_len _ _ _ _ Cs G). lia.
  - discriminate.
Qed.

Lemma page_loop_requests (fuel : nat) (page : Z) (cur : option string) acc r tr :
  page_loop sub limit max_pages min_date now fetch fuel page cur acc = (r, tr) ->
  (length tr <= Z.to_nat (max_pages - page))%nat.
Proof.
  revert page cur acc r tr; induction fuel as [|fuel IH]; intros page cur acc r tr H;
    [injection H as _ <-; simpl; lia|].
  assert (Hg : forall r', (r', [(page, cur)]) = (r, tr) ->
                 (Z.of_nat (length acc) <? limit) && (page <? max_pages) = true ->
                 (length tr <= Z.to_nat (max_pages - page))%nat).
  { intros r' E G. injection E as _ <-. apply andb_prop in G as [_ G].
    apply Z.ltb_lt in G. simpl. lia. }
  loop_cases H; try (eapply Hg; eassumption); try (injection H as _ <-; simpl; lia).
  injection H as _ <-. apply IH in Rec. apply andb_prop in G as [_ G].
  apply Z.ltb_lt in G. simpl. lia.
Qed.

Lemma stream_cons (x : Z * option string) (tr : list (Z * option string)) :
  stream (x :: tr) = (page_children fetch x ++ stream tr)%list.
Proof. reflexivity. Qed.

Lemma stream_single (page : Z) (cur : option string) (data : Listing) :
  fetch page cur = HttpJson data -> stream [(page, cur)] = children data.
Proof.
  intros F. rewrite stream_cons. unfold page_children. simpl. rewrite F. apply app_nil_r.
Qed.

Lemma app_single_nil {A} (pre : list A) (x y : A) : (pre ++ [x])%list = [y] -> pre = [].
Proof.
  intros H. destruct pre as [|a pre]; [reflexivity|]. simpl in H.
  injection H as _ H. destruct pre; discriminate.
Qed.

Lemma kept_processed (xs : list RedditPostData) (ys : list TradePost) :
  Forall2 kept xs ys -> Forall (fun pd => exists c, created_of pd = Ok c /\ not_cut c) xs.
Proof.
  induction 1 as [|x y xs ys (c & Ec & Hc & _) _ IH]; constructor; eauto.
Qed.

Lemma page_loop_stream (fuel : nat) (page : Z) (cur : option string) acc posts c' tr :
  page_loop sub limit max_pages min_date now fetch fuel page cur acc = (Ok (posts, c'), tr) ->
  exists k ps,
    posts = (acc ++ ps)%list /\
    Forall2 kept (firstn k (stream tr)) ps /\
    (forall pre last, tr = (pre ++ [last])%list ->
       Forall (fun pd => exists c, created_of pd = Ok c /\ not_cut c) (stream pre)).
Proof.
  revert page cur acc posts c' tr;
    induction fuel as [|fuel IH]; intros page cur acc posts c' tr H.
  { injection H as <- _ <-. exists 0%nat, []. rewrite app_nil_r.
    split; [reflexivity|]. split; [constructor|].
    intros pre last E. destruct pre; discriminate. }
  loop_cases H.
  - (* request failed *)
    injection H; intros; subst. exists 0%nat, []. rewrite app_nil_r.
    split; [reflexivity|]. split; [constructor|].
    intros pre last E. symmetry in E. apply app_single_nil in E. subst. constructor.
  - (* empty page *)
    injection H; intros; subst. exists 0%nat, []. rewrite app_nil_r.
    split; [reflexivity|]. split; [constructor|].
    intros pre last E. symmetry in E. apply app_single_nil in E. subst. constructor.
  - (* date cutoff *)
    injection H; intros; subst.
    destruct (consume_spec _ _ _ _ Cs) as (k & ps & -> & Hf & _).
    exists k, ps. split; [reflexivity|]. split; [rewrite (stream_single _ _ _ F), C; exact Hf|].
    intros pre last E. symmetry in E. apply app_single_nil in E. subst. constructor.
  - (* no next cursor *)
    injection H; intros; subst.
    destruct (consume_spec _ _ _ _ Cs) as (k & ps & -> & Hf & _).
    exists k, ps. split; [reflexivity|]. split; [rewrite (stream_single _ _ _ F), C; exact Hf|].
    intros pre last E. symmetry in E. apply app_single_nil in E. subst. constructor.
  - (* next page *)
    injection H as -> <-. rename l into tr'.
    destruct (consume_spec _ _ _ _ Cs) as (k & ps & -> & Hf & _ & Hk).
    destruct (IH _ _ _ _ _ _ Rec) as (k' & ps' & -> & Hf' & Hpre).
    destruct tr' as [|x tr'].
    + (* the next iteration issued no request *)
      unfold stream in Hf'; simpl in Hf'; rewrite firstn_nil in Hf'.
      inversion Hf'; subst ps'.
      exists k, ps. rewrite app_nil_r. split; [reflexivity|].
      split.
      * rewrite (stream_single _ _ _ F), C. exact Hf.
      * intros pre last E. symmetry in E. apply app_single_nil in E. subst. constructor.
    + destruct (page_loop_guard _ _ _ _ _ _ Rec ltac:(discriminate)) as [Hl _].
      destruct (Hk eq_refl) as [Ek|Ek]; [|lia].
      exists (length (pd0 :: cs0) + k')%nat, (ps ++ ps')%list.
      split; [rewrite app_assoc; reflexivity|]. split.
      * rewrite stream_cons. unfold page_children at 1. simpl fst; simpl snd.
        rewrite F, C, firstn_app_2. apply Forall2_app; [|exact Hf'].
        rewrite Ek, firstn_all in Hf. exact Hf.
      * intros pre last E. destruct pre as [|y pre].
        -- simpl in E. injection E as _ E. destruct tr'; discriminate.
        -- simpl in E. injection E as <- E. rewrite stream_cons.
           unfold page_children at 1. simpl fst; simpl snd. rewrite F, C.
           apply Forall_app. split.
           ++ apply kept_processed with (ys := ps). rewrite Ek in Hf.
              rewrite firstn_all in Hf. exact Hf.
           ++ apply (Hpre pre last E).
  - discriminate.
  - (* loop guard false *)
    injection H; intros; subst. exists 0%nat, []. rewrite app_nil_r.
    split; [reflexivity|]. split; [constructor|].
    intros pre last E. destruct pre; discriminate.
Qed.

Lemma page_loop_no_request (fuel : nat) (page : Z) (cur : option string) acc :
  (Z.of_nat (length acc) <? limit) && (page <? max_pages) = false ->
  snd (page_loop sub limit max_pages min_date now fetch fuel page cur acc) = [].
Proof. intros G. destruct fuel; simpl; [reflexivity|]. rewrite G. reflexivity. Qed.

(** One iteration: when the loop guard fails no request is issued;
    otherwise exactly one request is issued and pagination stops on a
    failed request, an empty page, the date cutoff, the limit being
    reached, a missing cursor or the page cap being reached. *)
Lemma page_loop_stops (fuel : nat) (page : Z) (cur : option string) acc :
  let tr := snd (page_loop sub limit max_pages min_date now fetch (S fuel) page cur acc) in
  (limit <= Z.of_nat (length acc) \/ max_pages <= page -> tr = []) /\
  (Z.of_nat (length acc) < limit -> page < max_pages ->
     (forall e, fetch page cur = HttpRaise e -> tr = [(page, cur)]) /\
     (forall data, fetch page cur = HttpJson data -> children data = [] ->
        tr = [(page, cur)]) /\
     (forall data acc' stop, fetch page cur = HttpJson data ->
        consume sub limit min_date now (children data) acc = Ok (acc', stop) ->
        stop = true \/ limit <= Z.of_nat (length acc') \/
        truthy_str (after data) = false \/ max_pages <= page + 1 ->
        tr = [(page, cur)])).
Proof.
  intros tr. split.
  - intros Hc. apply page_loop_no_request. apply andb_false_iff.
    destruct Hc; [left; apply Z.ltb_ge | right; apply Z.ltb_ge]; lia.
  - intros Hl Hp. unfold tr. cbn [page_loop].
    replace ((Z.of_nat (length acc) <? limit) && (page <? max_pages)) with true
      by (symmetry; apply andb_true_iff; split; apply Z.ltb_lt; lia).
    split; [|split].
    + intros e F. rewrite F. reflexivity.
    + intros data F Ec. rewrite F, Ec. reflexivity.
    + intros data acc' stop F Cs Hor. rewrite F.
      destruct (children data) as [|pd0 cs0] eqn:Ec; [reflexivity|].
      rewrite Cs. destruct stop; [reflexivity|].
      destruct (negb (truthy_str (after data))) eqn:T; [reflexivity|].
      assert (G : (Z.of_nat (length acc') <? limit) && (page + 1 <? max_pages) = false).
      { apply andb_false_iff. apply negb_false_iff in T.
        destruct Hor as [H|[H|[H|H]]]; [discriminate| |congruence|].
        - left; apply Z.ltb_ge; lia.
        - right; apply Z.ltb_ge; lia. }
      pose proof (page_loop_no_request fuel (page + 1) (after data) acc' G) as N.
      destruct (page_loop sub limit max_pages min_date now fetch fuel (page + 1)
                  (after data) acc') as [r' tr']. simpl in N |- *. subst tr'.
      reflexivity.
Qed.

Lemma page_loop_requests_first (fuel : nat) (page : Z) (cur : option string) acc :
  Z.of_nat (length acc) < limit -> page < max_pages ->
  exists tr', snd (page_loop sub limit max_pages min_date now fetch (S fuel) page cur acc)
              = (page, cur) :: tr'.
Proof.
  intros Hl Hp. cbn [page_loop].
  replace ((Z.of_nat (length acc) <? limit) && (page <? max_pages)) with true
    by (symmetry; apply andb_true_iff; split; apply Z.ltb_lt; lia).
  destruct (fetch page cur) as [e|data]; [eexists; reflexivity|].
  destruct (children data) as [|pd0 cs0]; [eexists; reflexivity|].
  destruct (consume sub limit min_date now (pd0 :: cs0) acc) as [[acc' []]|e];
    try (eexists; reflexivity).
  destruct (negb (truthy_str (after data))); [eexists; reflexivity|].
  destruct (page_loop sub limit max_pages min_date now fetch fuel (page + 1) (after data) acc')
    as [r tr]. eexists. reflexivity.
Qed.

(** When no stop condition holds after a request, the loop goes on
    with the next page number and the returned cursor, and issues that
    request when the count is still below [limit] and the page cap is
    not reached. *)
Lemma page_loop_next (fuel : nat) (page : Z) (cur : option string) acc data acc' :
  Z.of_nat (length acc) < limit -> page < max_pages ->
  fetch page cur = HttpJson data -> children data <> [] ->
  consume sub limit min_date now (children data) acc = Ok (acc', false) ->
  truthy_str (after data) = true ->
  snd (page_loop sub limit max_pages min_date now fetch (S fuel) page cur acc) =
    (page, cur) :: snd (page_loop sub limit max_pages min_date now fetch fuel
                          (page + 1) (after data) acc') /\
  (Z.of_nat (length acc') < limit -> page + 1 < max_pages ->
   max_pages <= page + Z.of_nat (S fuel) ->
   exists tr', snd (page_loop sub limit max_pages min_date now fetch (S fuel) page cur acc)
               = (page, cur) :: (page + 1, after data) :: tr').
Proof.
  intros Hl Hp F Hne Cs T.
  assert (E : snd (page_loop sub limit max_pages min_date now fetch (S fuel) page cur acc) =
    (page, cur) :: snd (page_loop sub limit max_pages min_date now fetch fuel
                          (page + 1) (after data) acc')).
  { cbn [page_loop].
    replace ((Z.of_nat (length acc) <? limit) && (page <? max_pages)) with true
      by (symmetry; apply andb_true_iff; split; apply Z.ltb_lt; lia).
    rewrite F. destruct (children data) as [|pd0 cs0]; [contradiction|].
    rewrite Cs, T. cbn [negb].
    destruct (page_loop sub limit max_pages min_date now fetch fuel (page + 1) (after data) acc')
      as [r tr]. reflexivity. }
  split; [exact E|]. intros Hl' Hp' Hf. rewrite E.
  destruct fuel as [|fuel']; [lia|].
  destruct (page_loop_requests_first fuel' (page + 1) (after data) acc' Hl' Hp') as [tr' E'].
  exists tr'. rewrite E'. reflexivity.
Qed.

(** C4 (amended): the fetcher returns at most [max(limit, 0)] records
    and issues at most [max(max_pages, 0)] page requests; each iteration
    stops pagination on the first of: count >= limit, page cap reached
    (no request), or, after its one request, a failed request, an empty
    page, the date cutoff, count >= limit, no next cursor, or the page
    cap being reached. Otherwise the loop goes on with page [page + 1]
    and the returned cursor, and requests that page as its next
    request whenever the loop guard still holds. The fuel bound
    [max_pages <= page + fuel] holds at every iteration of the fetcher:
    it starts at page 0 with fuel [max_pages], and each recursive call
    adds one to [page] and takes one from the fuel. *)
Theorem get_posts_paginated_bounds (authed : bool) :
  (let '(r, tr) := get_posts_paginated sub limit max_pages min_date now fetch authed in
   match r with
   | Ok (posts, _) => Z.of_nat (length posts) <= Z.max 0 limit
   | Raise _ => True
   end /\
   (length tr <= Z.to_nat max_pages)%nat) /\
  (forall fuel page cur acc,
   let tr := snd (page_loop sub limit max_pages min_date now fetch (S fuel) page cur acc) in
   (limit <= Z.of_nat (length acc) \/ max_pages <= page -> tr = []) /\
   (Z.of_nat (length acc) < limit -> page < max_pages ->
      (forall e, fetch page cur = HttpRaise e -> tr = [(page, cur)]) /\
      (forall data, fetch page cur = HttpJson data -> children data = [] ->
         tr = [(page, cur)]) /\
      (forall data acc' stop, fetch page cur = HttpJson data ->
         consume sub limit min_date now (children data) acc = Ok (acc', stop) ->
         stop = true \/ limit <= Z.of_nat (length acc') \/
         truthy_str (after data) = false \/ max_pages <= page + 1 ->
         tr = [(page, cur)]))) /\
  (forall fuel page cur acc data acc',
   let tr := snd (page_loop sub limit max_pages min_date now fetch (S fuel) page cur acc) in
   Z.of_nat (length acc) < limit -> page < max_pages ->
   fetch page cur = HttpJson data -> children data <> [] ->
   consume sub limit min_date now (children data) acc = Ok (acc', false) ->
   truthy_str (after data) = true ->
   tr = (page, cur) :: snd (page_loop sub limit max_pages min_date now fetch fuel
                              (page + 1) (after data) acc') /\
   (Z.of_nat (length acc') < limit -> page + 1 < max_pages ->
    max_pages <= page + Z.of_nat (S fuel) ->
    exists tr', tr = (page, cur) :: (page + 1, after data) :: tr')).
Proof.
  split; [|split; [exact page_loop_stops|exact page_loop_next]].
  unfold get_posts_paginated. destruct authed; simpl.
  - destruct (page_loop sub limit max_pages min_date now fetch (Z.to_nat max_pages) 0 None [])
      as [r tr] eqn:E.
    split.
    + destruct r as [[posts c']|e]; [|exact I].
      eapply page_loop_len; [exact E|]. simpl. lia.
    + apply page_loop_requests in E. rewrite Z.sub_0_r in E. exact E.
  - split; [simpl; lia|simpl; lia].
Qed.

Lemma nth_error_firstn_lt {A} (l : list A) (k j : nat) :
  (j < k)%nat -> nth_error (firstn k l) j = nth_error l j.
Proof.
  revert k j; induction l as [|x l IH]; intros k j Hjk.
  - rewrite firstn_nil. destruct j; reflexivity.
  - destruct k as [|k]; [lia|]. destruct j as [|j]; simpl; [reflexivity|].
    apply IH. lia.
Qed.

(** C5: with a date bound [d], the returned posts are the kept
    records of a prefix of the records of the requested pages, in
    order; that prefix ends before any record older than [d]; and every
    record of a page other than the last one requested was consumed
    and is not older than [d], so a record older than [d] is on the
    last page requested: pagination stopped there. *)
Theorem date_cutoff_stops (authed : bool) :
  let '(r, tr) := get_posts_paginated sub limit max_pages min_date now fetch authed in
  match r with
  | Ok (posts, _) =>
      exists k,
        Forall2 kept (firstn k (stream tr)) posts /\
        (forall j pd c d, min_date = Some d -> nth_error (stream tr) j = Some pd ->
           created_of pd = Ok c -> c < d -> (k <= j)%nat) /\
        (forall pre last, tr = (pre ++ [last])%list ->
           forall pd c d, min_date = Some d -> In pd (stream pre) ->
           created_of pd = Ok c -> d <= c)
  | Raise _ => True
  end.
Proof.
  unfold get_posts_paginated. destruct authed; simpl.
  - destruct (page_loop sub limit max_pages min_date now fetch (Z.to_nat max_pages) 0 None [])
      as [r tr] eqn:E.
    destruct r as [[posts c']|e]; [|exact I].
    destruct (page_loop_stream _ _ _ _ _ _ _ E) as (k & ps & -> & Hf & Hpre).
    exists k. split; [exact Hf|]. split.
    + intros j pd c d Hd Hj Ec Hc. destruct (Nat.lt_ge_cases j k) as [Hlt|]; [|assumption].
      exfalso. rewrite <- (nth_error_firstn_lt _ _ _ Hlt) in Hj.
      apply nth_error_In in Hj. apply kept_processed in Hf.
      eapply Forall_forall in Hf; [|exact Hj]. destruct Hf as (c0 & Ec0 & Hn).
      rewrite Ec in Ec0. injection Ec0 as <-. unfold not_cut in Hn. rewrite Hd in Hn. lia.
    + intros pre last Etr pd c d Hd Hin Ec. specialize (Hpre pre last Etr).
      eapply Forall_forall in Hpre; [|exact Hin]. destruct Hpre as (c0 & Ec0 & Hn).
      rewrite Ec in Ec0. injection Ec0 as <-. unfold not_cut in Hn. rewrite Hd in Hn. exact Hn.
  - exists 0%nat. split; [constructor|]. split; [intros; lia|].
    intros pre last E. destruct pre; discriminate.
Qed.

End Loop.

(** C4 (counterexample): with [limit = -1] and [max_pages = -1] the
    fetcher returns no record and issues no request: 0 records is more
    than [limit] and 0 requests is more than [max_pages]. *)
Lemma get_posts_paginated_negative_cex :
  let '(r, tr) := get_posts_paginated "kpopforsale" (-1) (-1) None 0
                    (fun _ _ => HttpRaise ReqTimeout) true in
  match r with
  | Ok (posts, _) => -1 < Z.of_nat (length posts) /\ -1 < Z.of_nat (length tr)
  | Raise _ => False
  end.
Proof. vm_compute. split; reflexivity. Qed.

End PaginatedProofs.

(* ================================================================= *)
(** ** Token handling of [authenticate] *)

Module SessionProofs.

Import Model Session.



End SessionProofs.

(* ================================================================= *)
(** ** Case handling of the title parser and the artist filter *)

Module CaseProofs.

Import TitleTags Model Collector Pipeline.

Lemma ascii_lower_upper (c : ascii) : ascii_lower (ascii_upper c) = ascii_lower c.
Proof. destruct c as [[] [] [] [] [] [] [] []]; reflexivity. Qed.

Lemma ascii_lower_lower (c : ascii) : ascii_lower (ascii_lower c) = ascii_lower c.
Proof. destruct c as [[] [] [] [] [] [] [] []]; reflexivity. Qed.

Lemma ascii_upper_upper (c : ascii) : ascii_upper (ascii_upper c) = ascii_upper c.
Proof. destruct c as [[] [] [] [] [] [] [] []]; reflexivity. Qed.

Lemma ascii_upper_lower (c : ascii) : ascii_upper (ascii_lower c) = ascii_upper c.
Proof. destruct c as [[] [] [] [] [] [] [] []]; reflexivity. Qed.

Lemma str_map_map (f g : ascii -> ascii) (s : string) :
  str_map f (str_map g s) = str_map (fun c => f (g c)) s.
Proof. induction s as [|c s IH]; simpl; [reflexivity|now rewrite IH]. Qed.

Lemma str_map_ext (f g : ascii -> ascii) (s : string) :
  (forall c, f c = g c) -> str_map f s = str_map g s.
Proof. intros H; induction s as [|c s IH]; simpl; [reflexivity|now rewrite H, IH]. Qed.

Lemma str_map_app (f : ascii -> ascii) (s1 s2 : string) :
  str_map f (s1 ++ s2) = (str_map f s1 ++ str_map f s2)%string.
Proof. induction s1 as [|c s1 IH]; simpl; [reflexivity|now rewrite IH]. Qed.

Lemma str_map_length (f : ascii -> ascii) (s : string) :
  String.length (str_map f s) = String.length s.
Proof. induction s as [|c s IH]; simpl; [reflexivity|now rewrite IH]. Qed.

Lemma lower_upper (s : string) : lower (upper s) = lower s.
Proof. unfold lower, upper. rewrite str_map_map. apply str_map_ext, ascii_lower_upper. Qed.

Lemma lower_lower (s : string) : lower (lower s) = lower s.
Proof. unfold lower. rewrite str_map_map. apply str_map_ext, ascii_lower_lower. Qed.

Lemma upper_upper (s : string) : upper (upper s) = upper s.
Proof. unfold upper. rewrite str_map_map. apply str_map_ext, ascii_upper_upper. Qed.

Lemma upper_lower (s : string) : upper (lower s) = upper s.
Proof. unfold lower, upper. rewrite str_map_map. apply str_map_ext, ascii_upper_lower. Qed.

Lemma truthy_str_map (f : ascii -> ascii) (s : string) :
  truthy_str (Some (str_map f s)) = truthy_str (Some s).
Proof. destruct s; reflexivity. Qed.

Lemma first_transaction_type_lower (tts : list string) (t1 t2 : string) :
  lower t1 = lower t2 -> first_transaction_type tts t1 = first_transaction_type tts t2.
Proof.
  intros E; induction tts as [|x tts IH]; simpl; [reflexivity|]. now rewrite E, IH.
Qed.

(** The title parser ignores the case of ASCII letters: upper- or
    lower-casing the title leaves both tags unchanged. *)
Theorem parse_title_tags_case_insensitive (t : string) :
  parse_title_tags (upper t) = parse_title_tags t /\
  parse_title_tags (lower t) = parse_title_tags t.
Proof.
  unfold parse_title_tags. split.
  - rewrite (first_transaction_type_lower _ _ _ (lower_upper t)), upper_upper.
    reflexivity.
  - rewrite (first_transaction_type_lower _ _ _ (lower_lower t)), upper_lower.
    reflexivity.
Qed.

Lemma country_lookup_in_value (m : list (string * string)) (k v : string) :
  country_lookup_in m k = Some v -> In v (map snd m).
Proof.
  induction m as [|[k' v'] m IH]; simpl; [discriminate|].
  destruct (String.eqb k k'); [intros H; injection H as <-; now left|].
  intros H; right; auto.
Qed.

Lemma first_country_value (ms : list string) (c : string) :
  first_country ms = Some c -> In c (map snd country_mapping).
Proof.
  induction ms as [|m ms IH]; simpl; [discriminate|].
  destruct (country_lookup (strip m)) as [c'|] eqn:E; [|exact IH].
  intros H; injection H as <-. exact (country_lookup_in_value _ _ _ E).
Qed.

(** The region returned by the title parser is always one of the 25
    canonical codes of the country table (a country name such as
    CANADA is always mapped to its code). *)
Theorem parse_title_tags_country_codes (t : string) :
  match snd (parse_title_tags t) with
  | Some c => In c ["USA"; "UK"; "EU"; "WW"; "CAN"; "AUS"; "KR"; "JP"; "SG";
                    "PH"; "MY"; "TH"; "ID"; "VN"; "TW"; "HK"; "NZ"; "DE"; "FR";
                    "NL"; "IT"; "ES"; "BR"; "MX"; "IN"]
  | None => True
  end.
Proof.
  destruct (snd (parse_title_tags t)) as [c|] eqn:E; [|exact I].
  apply first_country_value in E. simpl in E.
  repeat (destruct E as [<-|E]; [simpl; tauto|]). destruct E.
Qed.

Lemma contains_artist_lower (p : TradePost) (a b : string) :
  lower a = lower b -> contains_artist p a = contains_artist p b.
Proof. intros E. unfold contains_artist. now rewrite E. Qed.

Lemma finish_artist_lower (a b : string) (limit : Z) (l : list TradePost) :
  lower a = lower b -> String.length a = String.length b ->
  finish (Some a) limit l = finish (Some b) limit l.
Proof.
  intros E Hl. unfold finish.
  replace (truthy_str (Some a)) with (truthy_str (Some b))
    by (destruct a, b; simpl in Hl; try discriminate; reflexivity).
  rewrite (filter_ext (fun p => contains_artist p a) (fun p => contains_artist p b));
    [reflexivity|]. intros p. apply contains_artist_lower; exact E.
Qed.

(** The artist filter and the rest of the post-fetch stages of
    [collect] ignore the case of the ASCII letters of the artist name:
    "BTS", "bts" and "Bts" select the same posts, in the same order. *)
Theorem finish_artist_case_insensitive (a : string) (limit : Z) (l : list TradePost) :
  finish (Some (upper a)) limit l = finish (Some a) limit l /\
  finish (Some (lower a)) limit l = finish (Some a) limit l.
Proof.
  split; apply finish_artist_lower; try apply str_map_length.
  - apply lower_upper.
  - apply lower_lower.
Qed.

Lemma space_lower (c : ascii) :
  ascii_lower (if Ascii.eqb c " " then "_"%char else c) =
  (if Ascii.eqb (ascii_lower c) " " then "_"%char else ascii_lower c).
Proof. destruct c as [[] [] [] [] [] [] [] []]; reflexivity. Qed.

Lemma artist_safe_lower (a b : string) :
  lower a = lower b -> artist_safe a = artist_safe b.
Proof. intros E. unfold artist_safe. now rewrite E. Qed.

(** The file name of [save_to_jsonl] folds the case of ASCII letters
    and turns spaces into underscores: for the same minute, a name, the
    same name with its ASCII letters upper-cased (other characters
    unchanged), and the same name with its spaces replaced by
    underscores are written to the same file; e.g. "Stray Kids",
    "STRAY KIDS" and "Stray_Kids". *)
Theorem jsonl_filename_collisions (a ts : string) :
  jsonl_filename (Some (upper a)) ts = jsonl_filename (Some a) ts /\
  jsonl_filename (Some (str_map (fun c => if Ascii.eqb c " " then "_"%char else c) a)) ts
    = jsonl_filename (Some a) ts.
Proof.
  unfold jsonl_filename. split.
  - rewrite (truthy_str_map ascii_upper a : truthy_str (Some (upper a)) = _).
    rewrite (artist_safe_lower _ _ (lower_upper a)). reflexivity.
  - rewrite truthy_str_map.
    replace (artist_safe (str_map (fun c => if Ascii.eqb c " " then "_"%char else c) a))
      with (artist_safe a); [reflexivity|].
    unfold artist_safe, lower. rewrite !str_map_map. apply str_map_ext.
    intros c. destruct c as [[] [] [] [] [] [] [] []]; reflexivity.
Qed.

Lemma artist_safe_slash (a : string) :
  prefixb "/" a = true -> prefixb "/" (artist_safe a) = true.
Proof.
  destruct a as [|c a]; [discriminate|]. intros H. cbn [prefixb] in H.
  apply andb_prop in H as [H _]. apply Ascii.eqb_eq in H. subst c. reflexivity.
Qed.

Lemma posix_path_abs (s : string) :
  prefixb "/" s = true -> prefixb "/" (posix_path s) = true.
Proof.
  intros H. unfold posix_path. rewrite H.
  destruct (prefixb "//" s && negb (prefixb "///" s))%bool; [reflexivity|].
  reflexivity.
Qed.

(** [save_to_jsonl] does not confine its file to [data/]: an artist
    name that starts with a slash replaces the directory, and the file
    is written at that absolute path. *)
Theorem jsonl_filename_absolute (a ts : string) :
  prefixb "/" a = true ->
  jsonl_filename (Some a) ts = posix_path (artist_safe a ++ "_trade_v2_" ++ ts ++ ".jsonl") /\
  prefixb "/" (jsonl_filename (Some a) ts) = true.
Proof.
  intros H.
  assert (Ha : prefixb "/" (artist_safe a ++ "_trade_v2_" ++ ts ++ ".jsonl") = true).
  { pose proof (artist_safe_slash a H) as Hs.
    destruct (artist_safe a) as [|c r]; [discriminate|]. exact Hs. }
  assert (E : jsonl_filename (Some a) ts =
              posix_path (artist_safe a ++ "_trade_v2_" ++ ts ++ ".jsonl")).
  { unfold jsonl_filename. destruct a as [|c r]; [discriminate|]. simpl truthy_str.
    unfold path_div. rewrite Ha. reflexivity. }
  split; [exact E|]. rewrite E. now apply posix_path_abs.
Qed.

Lemma jsonl_filename_absolute_witness :
  prefixb "/" "/tmp/x" = true /\
  jsonl_filename (Some "/tmp/x") "20240101_0000" = posix_path (artist_safe "/tmp/x" ++ "_trade_v2_" ++ "20240101_0000" ++ ".jsonl") /\
  prefixb "/" (jsonl_filename (Some "/tmp/x") "20240101_0000") = true.
Proof. split; [reflexivity|]. apply jsonl_filename_absolute. reflexivity. Defined.

End CaseProofs.

(* ================================================================= *)
(** ** Records returned by the fetch calls *)

Module FetchProofs.

Import Model Search Paginated Pipeline.

Lemma prefixb_app_l (p s : string) : prefixb p (p ++ s) = true.
Proof.
  induction p as [|c p IH]; simpl; [reflexivity|]. now rewrite Ascii.eqb_refl, IH.
Qed.

Lemma reddit_trade_post_fields (sub : string) (now : Z) (pd : RedditPostData) (c : Z) :
  let p := reddit_trade_post sub now pd c in
  source p = "reddit_api" /\ subreddit p = Some sub /\
  prefixb "https://reddit.com" (permalink p) = true /\ created_timestamp p = Some c.
Proof.
  unfold reddit_trade_post. destruct (TitleTags.parse_title_tags _). cbn -[prefixb].
  split; [reflexivity|]. split; [reflexivity|]. split; [|reflexivity].
  apply (prefixb_app_l "https://reddit.com").
Qed.

Lemma Forall2_Forall_r {A B} (R : A -> B -> Prop) (P : B -> Prop) xs ys :
  (forall x y, R x y -> P y) -> Forall2 R xs ys -> Forall P ys.
Proof. intros H; induction 1; constructor; eauto. Qed.

Lemma search_children_built (sub : string) (now threshold : Z) cs :
  match search_children sub now threshold cs with
  | Ok ps => Forall (fun p => exists pd c, created_of pd = Ok c /\
                                        p = reddit_trade_post sub now pd c) ps
  | Raise _ => True
  end.
Proof.
  induction cs as [|pd cs IH]; simpl; auto.
  destruct (created_of pd) as [c|e] eqn:Ec; auto.
  destruct (c <? threshold); auto.
  destruct (search_children sub now threshold cs); auto.
  constructor; eauto.
Qed.

(** Every record returned by the feed search is tagged as coming from
    the Reddit API and from the subreddit searched, and its permalink
    is an https://reddit.com URL. *)
Theorem search_subreddit_posts (authed : bool) (sub : string) (now : Z)
    (net : nat -> HttpOutcome Listing) :
  match fst (fst (search_subreddit authed sub now net)) with
  | Ok ps => Forall (fun p => source p = "reddit_api" /\ subreddit p = Some sub /\
                             prefixb "https://reddit.com" (permalink p) = true) ps
  | Raise _ => True
  end.
Proof.
  unfold search_subreddit, retry3. apply SearchProofs.tenacity_loop_ok.
  intros n ps. unfold search_subreddit_body.
  destruct authed; simpl; [|intros H; injection H as <-; constructor].
  destruct (net n) as [e|data]; [intros H; injection H as <-; constructor|].
  intros H. pose proof (search_children_built sub now (now - days_180) (children data)) as R.
  rewrite H in R. eapply Forall_impl; [|exact R].
  intros p (pd & c & _ & ->). destruct (reddit_trade_post_fields sub now pd c) as (? & ? & ? & _).
  auto.
Qed.

Lemma created_of_raise (pd : RedditPostData) (e : Exn) :
  created_of pd = Raise e -> e = ValueError.
Proof.
  unfold created_of, fromtimestamp.
  destruct (_ || _); intros H; [injection H as <-; reflexivity|discriminate].
Qed.

Lemma search_children_raise (sub : string) (now threshold : Z) cs :
  (forall e, search_children sub now threshold cs = Raise e -> e = ValueError) /\
  (forall pd e, In pd cs -> created_of pd = Raise e ->
     search_children sub now threshold cs = Raise ValueError).
Proof.
  induction cs as [|pd cs [IH1 IH2]]; simpl.
  - split; [discriminate|tauto].
  - destruct (created_of pd) as [c|e0] eqn:Ec.
    + split.
      * intros e. destruct (c <? threshold); [apply IH1|].
        destruct (search_children sub now threshold cs) eqn:Es; [discriminate|].
        intros H; injection H as <-. now apply IH1.
      * intros pd' e [<-|Hin] He; [congruence|].
        rewrite (IH2 pd' e Hin He). destruct (c <? threshold); reflexivity.
    + apply created_of_raise in Ec. subst e0.
      split; [intros e H; injection H as <-; reflexivity|reflexivity].
Qed.

(** A record whose [created_utc] is out of the [datetime] range makes
    [search_subreddit] raise: the conversion sits outside the [try]
    block, its error is not one the decorator retries, so the call
    fails after one attempt and the other records of the response are
    lost. *)
Theorem search_subreddit_bad_timestamp (sub : string) (now : Z)
    (net : nat -> HttpOutcome Listing) (data : Listing) (pd : RedditPostData) :
  net 1%nat = HttpJson data -> In pd (children data) ->
  (exists e, created_of pd = Raise e) ->
  exists e, search_subreddit true sub now net = (Raise e, 1%nat, []) /\ retryable e = false.
Proof.
  intros Hn Hin (e & He). exists ValueError. split; [|reflexivity].
  unfold search_subreddit, retry3, tenacity_loop, search_subreddit_body. simpl negb.
  rewrite Hn. rewrite (proj2 (search_children_raise sub now (now - days_180) _) pd e Hin He).
  reflexivity.
Qed.

Definition bad_record : RedditPostData :=
  mkRedditPostData (Some (- epoch)) (Some "[WTS] svt pc") None None None None None
    None (Some "/r/kpopforsale/comments/a/") None false None None None.

Lemma search_subreddit_bad_timestamp_witness :
  exists e, search_subreddit true "kpopforsale" (1700000000 + epoch)
              (fun _ => HttpJson (mkListing [bad_record] None)) = (Raise e, 1%nat, []) /\
            retryable e = false.
Proof.
  apply (search_subreddit_bad_timestamp "kpopforsale" (1700000000 + epoch)
           (fun _ => HttpJson (mkListing [bad_record] None)) (mkListing [bad_record] None)
           bad_record).
  - reflexivity.
  - now left.
  - exists ValueError. reflexivity.
Defined.

(** [SerpAPIClient.search] builds one post per organic result, in
    order, in one attempt when the response carries no error; every
    post it returns is tagged "serpapi", has no timestamp, no
    subreddit, and a zero score and comment count. *)
Theorem serp_search_posts (available : bool) (now : Z)
    (net : nat -> HttpOutcome SerpResponse) :
  match fst (fst (serp_search available now net)) with
  | Ok ps => Forall (fun p => source p = "serpapi" /\ created_timestamp p = None /\
                             subreddit p = None /\ score p = 0 /\ comment_count p = 0) ps
  | Raise _ => True
  end /\
  (forall d, net 1%nat = HttpJson d -> serp_error d = None ->
   serp_search true now net = (Ok (map (serp_trade_post now) (organic_results d)), 1%nat, [])).
Proof.
  split.
  - unfold serp_search, retry3. apply SearchProofs.tenacity_loop_ok.
    intros n ps. unfold serp_search_body.
    destruct available; simpl; [|intros H; injection H as <-; constructor].
    destruct (net n) as [e|d]; [intros H; injection H as <-; constructor|].
    destruct (serp_error d); intros H; injection H as <-; [constructor|].
    apply Forall_forall. intros p Hp. apply in_map_iff in Hp as (item & <- & _).
    unfold serp_trade_post. destruct (TitleTags.parse_title_tags _). simpl. auto.
  - intros d Hn He. unfold serp_search, retry3, tenacity_loop, serp_search_body.
    simpl negb. rewrite Hn, He. reflexivity.
Qed.

(** Every record returned by the paginated fetcher is tagged as coming
    from the Reddit API and from the subreddit fetched, has an
    https://reddit.com permalink and a timestamp, and that timestamp
    is not older than [min_date] when one is given. *)
Theorem get_posts_paginated_posts (sub : string) (limit max_pages : Z)
    (min_date : option Z) (now : Z) (fetch : Z -> option string -> HttpOutcome Listing)
    (authed : bool) :
  match fst (get_posts_paginated sub limit max_pages min_date now fetch authed) with
  | Ok (posts, _) =>
      Forall (fun p => source p = "reddit_api" /\ subreddit p = Some sub /\
                       prefixb "https://reddit.com" (permalink p) = true /\
                       exists t, created_timestamp p = Some t /\
                                 match min_date with Some d => d <= t | None => True end)
             posts
  | Raise _ => True
  end.
Proof.
  unfold get_posts_paginated. destruct authed; simpl; [|constructor].
  destruct (page_loop sub limit max_pages min_date now fetch (Z.to_nat max_pages) 0 None [])
    as [r tr] eqn:E.
  destruct r as [[posts c']|e]; simpl; [|exact I].
  destruct (PaginatedProofs.page_loop_stream _ _ _ _ _ _ _ _ _ _ _ _ _ E)
    as (k & ps & -> & Hf & _).
  simpl. eapply Forall2_Forall_r; [|exact Hf].
  intros pd p (c & Ec & Hc & ->).
  destruct (reddit_trade_post_fields sub now pd c) as (H1 & H2 & H3 & H4).
  split; [exact H1|]. split; [exact H2|]. split; [exact H3|].
  exists c. split; [exact H4|]. exact Hc.
Qed.

Lemma page_loop_first_request (sub : string) (limit max_pages : Z) (min_date : option Z)
    (now : Z) (fetch : Z -> option string -> HttpOutcome Listing) fuel page cur acc r x tr :
  page_loop sub limit max_pages min_date now fetch fuel page cur acc = (r, x :: tr) ->
  x = (page, cur).
Proof.
  destruct fuel as [|fuel]; cbn [page_loop]; [intros H; injection H as _ H; discriminate|].
  destruct (_ && _); [|intros H; injection H as _ H; discriminate].
  destruct (fetch page cur) as [e|data]; [intros H; injection H as _ <-; reflexivity|].
  destruct (children data) as [|pd cs]; [intros H; injection H as _ <-; reflexivity|].
  destruct (consume sub limit min_date now (pd :: cs) acc) as [[acc' []]|e];
    [intros H; injection H as _ <-; reflexivity| |intros H; injection H as _ <-; reflexivity].
  destruct (negb _); [intros H; injection H as _ <-; reflexivity|].
  destruct (page_loop sub limit max_pages min_date now fetch fuel (page + 1) (after data) acc').
  intros H; injection H as _ <-. reflexivity.
Qed.

(** [get_new_posts] issues at most one request, for the first page
    with no cursor, returns at most [max(limit, 0)] records, and
    applies no date bound: its records are those built from the
    leading records of that page, none skipped. *)
Theorem get_new_posts_single_page (sub : string) (limit now : Z)
    (fetch : Z -> option string -> HttpOutcome Listing) (authed : bool) :
  let '(r, tr) := get_new_posts sub limit now fetch authed in
  (tr = [] \/ tr = [(0, None)]) /\
  match r with
  | Ok posts =>
      Z.of_nat (length posts) <= Z.max 0 limit /\
      exists k, Forall2 (fun pd p => exists c, created_of pd = Ok c /\
                                            p = reddit_trade_post sub now pd c)
                        (firstn k (page_children fetch (0, None))) posts
  | Raise _ => True
  end.
Proof.
  unfold get_new_posts, get_posts_paginated. destruct authed; simpl negb; cbv iota.
  - destruct (page_loop sub limit 1 None now fetch (Z.to_nat 1) 0 None []) as [r tr] eqn:E.
    assert (Htr : tr = [] \/ tr = [(0, None)]).
    { pose proof (PaginatedProofs.page_loop_requests _ _ _ _ _ _ _ _ _ _ _ _ E) as L.
      simpl in L. destruct tr as [|x [|y tr]]; [now left| |simpl in L; lia].
      right. now rewrite (page_loop_first_request _ _ _ _ _ _ _ _ _ _ _ _ _ E). }
    split; [exact Htr|].
    destruct r as [[posts c']|e]; [|exact I]. split.
    + eapply PaginatedProofs.page_loop_len; [exact E|]. simpl. lia.
    + destruct (PaginatedProofs.page_loop_stream _ _ _ _ _ _ _ _ _ _ _ _ _ E)
        as (k & ps & -> & Hf & _).
      simpl. destruct Htr as [->| ->].
      * exists 0%nat. unfold PaginatedProofs.stream in Hf. simpl in Hf.
        rewrite firstn_nil in Hf. inversion Hf; constructor.
      * exists k. unfold PaginatedProofs.stream in Hf. simpl in Hf. rewrite app_nil_r in Hf.
        eapply Forall2_impl; [|exact Hf]. intros pd p (c & Ec & _ & ->). eauto.
  - simpl. split; [now left|]. split; [apply Z.le_max_l|]. exists 0%nat. constructor.
Qed.

(** The retry decorator of the two search calls makes one to three
    attempts and sleeps two seconds between consecutive attempts; a
    value it returns is the one the last attempt returned. *)
Theorem retry3_attempts {A} (body : nat -> Result A) :
  let '(r, n, ws) := retry3 body in
  (1 <= n <= 3)%nat /\ ws = repeat 2 (n - 1) /\
  (forall a, r = Ok a -> body n = Ok a).
Proof.
  unfold retry3. cbn [tenacity_loop].
  destruct (body 1%nat) as [a|e1] eqn:B1;
    [split; [lia|split; [reflexivity|intros ? H; injection H as <-; exact B1]]|].
  destruct (retryable e1); [|split; [lia|split; [reflexivity|discriminate]]].
  destruct (body 2%nat) as [a|e2] eqn:B2;
    [split; [lia|split; [reflexivity|intros ? H; injection H as <-; exact B2]]|].
  destruct (retryable e2); [|split; [lia|split; [reflexivity|discriminate]]].
  destruct (body 3%nat) as [a|e3] eqn:B3;
    [split; [lia|split; [reflexivity|intros ? H; injection H as <-; exact B3]]|].
  destruct (retryable e3); split; [lia|split; [reflexivity|discriminate]| |].
  all: try lia.
  all: split; [reflexivity|discriminate].
Qed.

End FetchProofs.

(* ================================================================= *)
(** ** Token reuse and partial updates of [authenticate] *)

Module SessionExtraProofs.

Import Model Session.

Lemma authenticate_not_cached (c : Client) (now_check now_set : Z) (resp : HttpOutcome Json) :
  is_available c = true ->
  (token_truthy c = false \/ forall exp, token_expires_at c = Some exp -> exp <= now_check) ->
  authenticate c now_check now_set resp =
  match exchange_body c resp now_set with
  | (Ok _, c') => (true, c', true)
  | (Raise _, c') => (false, c', true)
  end.
Proof.
  intros Ha Hn. unfold authenticate. rewrite Ha. simpl negb. cbv iota.
  replace (if token_truthy c then match token_expires_at c with
                                  | Some exp => now_check <? exp | None => false end
           else false) with false; [reflexivity|].
  destruct (token_truthy c) eqn:Ht; [|reflexivity].
  destruct Hn as [Hn|Hn]; [discriminate|].
  destruct (token_expires_at c) as [exp|]; [|reflexivity].
  symmetry. apply Z.ltb_ge. now apply Hn.
Qed.




(** When the token reply has an [access_token] but its [expires_in]
    is not a number, or gives an expiry out of the [datetime] range,
    [authenticate] returns [False] yet has already stored the new
    token, next to the previous expiry. *)
Theorem authenticate_failure_keeps_token (c : Client) (now_check now_set : Z)
    (fs : list (string * JValue)) (tok : JValue) :
  is_available c = true ->
  (token_truthy c = false \/ forall exp, token_expires_at c = Some exp -> exp <= now_check) ->
  field "access_token" fs = Some tok ->
  ((forall z, default (JNum 3600) (field "expires_in" fs) <> JNum z) /\
   (forall b, default (JNum 3600) (field "expires_in" fs) <> JBool b)) \/
  (exists ttl, default (JNum 3600) (field "expires_in" fs) = JNum ttl /\
               (now_set + (ttl - 60) < datetime_min \/ datetime_max < now_set + (ttl - 60))) ->
  authenticate c now_check now_set (HttpJson (JObject fs)) =
  (false, mkClient (app_id c) (secret c) (Some tok) (token_expires_at c), true).
Proof.
  intros Ha Hn Ef Hbad.
  rewrite (authenticate_not_cached c now_check now_set _ Ha Hn).
  unfold exchange_body. rewrite Ef.
  destruct Hbad as [[Hz Hb]|(ttl & Ed & Hr)].
  - destruct (default (JNum 3600) (field "expires_in" fs)) eqn:Ed; try reflexivity.
    + exfalso. eapply Hz. reflexivity.
    + exfalso. eapply Hb. reflexivity.
  - rewrite Ed. unfold add_seconds.
    replace ((now_set + (ttl - 60) <? datetime_min) || (datetime_max <? now_set + (ttl - 60)))
      with true; [reflexivity|].
    symmetry. apply orb_true_iff. destruct Hr; [left|right]; apply Z.ltb_lt; lia.
Qed.

Lemma authenticate_failure_keeps_token_witness :
  authenticate (init_client (Some "app") (Some "secret")) (1700000000 + epoch) (1700000000 + epoch)
    (HttpJson (JObject [("access_token", JStr "tok"); ("expires_in", JStr "3600")]))
  = (false, mkClient (Some "app") (Some "secret") (Some (JStr "tok")) None, true).
Proof.
  apply (authenticate_failure_keeps_token (init_client (Some "app") (Some "secret"))
           (1700000000 + epoch) (1700000000 + epoch)
           [("access_token", JStr "tok"); ("expires_in", JStr "3600")] (JStr "tok")).
  - reflexivity.
  - now left.
  - reflexivity.
  - left. split; intros ? H; discriminate H.
Defined.

End SessionExtraProofs.

(* ================================================================= *)
(** ** Filters, limit and order of the post-fetch stages *)

Module FinishProofs.

Import TitleTags Model Collector.

Lemma prefixb_app_r (p s1 s2 : string) :
  prefixb p s1 = true -> prefixb p (s1 ++ s2) = true.
Proof.
  revert s1; induction p as [|a p IH]; intros s1 H; [reflexivity|].
  destruct s1 as [|b s1]; [discriminate|]. simpl in *.
  apply andb_prop in H as [H1 H2]. now rewrite H1, IH.
Qed.

Lemma containsb_app_r (p s1 s2 : string) :
  containsb p s1 = true -> containsb p (s1 ++ s2) = true.
Proof.
  induction s1 as [|c s1 IH]; intros H.
  - simpl in H. rewrite orb_false_r in H. destruct p; [|discriminate].
    destruct s2; reflexivity.
  - change (String c s1 ++ s2)%string with (String c (s1 ++ s2)).
    simpl in H |- *. apply orb_prop in H as [H|H].
    + change (String c (s1 ++ s2)) with (String c s1 ++ s2)%string.
      now rewrite (prefixb_app_r _ _ _ H).
    + rewrite (IH H). apply orb_true_r.
Qed.

Lemma lower_app (s1 s2 : string) : lower (s1 ++ s2) = (lower s1 ++ lower s2)%string.
Proof. apply CaseProofs.str_map_app. Qed.

(** The keyword test of [is_trade_post] on [title + " " + selftext]. *)
Lemma transaction_type_keyword (t s : string) (r : string) :
  first_transaction_type transaction_types t = Some r ->
  existsb (fun kw => containsb kw (lower (t ++ " " ++ s))) TRADE_KEYWORDS = true.
Proof.
  intros H. apply TitleTagsProofs.first_transaction_type_spec in H
    as (pre & tok & post & E & _ & Hc & _).
  rewrite lower_app. apply existsb_exists.
  assert (Hin : In tok transaction_types) by (rewrite E; apply in_or_app; right; now left).
  simpl in Hin.
  repeat destruct Hin as [<-|Hin]; try destruct Hin.
  - exists "wts". split; [simpl; tauto|]. now apply containsb_app_r.
  - exists "wtb". split; [simpl; tauto|]. now apply containsb_app_r.
  - exists "wtt". split; [simpl; tauto|]. now apply containsb_app_r.
  - exists "wtt". split; [simpl; tauto|]. apply containsb_app_r.
    change (lower "WTT/WTS") with ("wtt" ++ "/wts")%string in Hc.
    exact (TitleTagsProofs.containsb_app _ _ _ Hc).
  - exists "wts". split; [simpl; tauto|]. apply containsb_app_r.
    change (lower "WTS/WTT") with ("wts" ++ "/wtt")%string in Hc.
    exact (TitleTagsProofs.containsb_app _ _ _ Hc).
  - exists "iso". split; [simpl; tauto|]. now apply containsb_app_r.
Qed.

Lemma is_trade_post_parsed (p : TradePost) :
  transaction_type p = fst (parse_title_tags (title p)) ->
  is_trade_post p =
  existsb (fun kw => containsb kw (lower (title p ++ " " ++ selftext p))) TRADE_KEYWORDS.
Proof.
  intros E. unfold is_trade_post. rewrite E.
  destruct (fst (parse_title_tags (title p))) as [r|] eqn:Er.
  - change (first_transaction_type transaction_types (title p) = Some r) in Er.
    rewrite (transaction_type_keyword _ _ _ Er).
    destruct (truthy_str (Some r)); reflexivity.
  - reflexivity.
Qed.

(** For every post built by the two Reddit loops or by the SerpAPI
    search, the transaction-type shortcut of [is_trade_post] never
    changes its answer: such a post is a trade post exactly when its
    lower-cased title and body contain one of [TRADE_KEYWORDS]. *)
Theorem built_posts_trade_keywords :
  (forall sub now pd c,
     let p := reddit_trade_post sub now pd c in
     is_trade_post p =
     existsb (fun kw => containsb kw (lower (title p ++ " " ++ selftext p))) TRADE_KEYWORDS) /\
  (forall now item,
     let p := serp_trade_post now item in
     is_trade_post p =
     existsb (fun kw => containsb kw (lower (title p ++ " " ++ selftext p))) TRADE_KEYWORDS).
Proof.
  split.
  - intros sub now pd c p. apply is_trade_post_parsed. unfold p, reddit_trade_post. cbv zeta.
    destruct (parse_title_tags _). reflexivity.
  - intros now item p. apply is_trade_post_parsed. unfold p, serp_trade_post. cbv zeta.
    destruct (parse_title_tags _). reflexivity.
Qed.

Lemma insert_desc_perm (x : TradePost) (l : list TradePost) :
  Permutation (insert_desc x l) (x :: l).
Proof.
  induction l as [|y l IH]; simpl; [reflexivity|].
  destruct (sort_key y <=? sort_key x); [reflexivity|].
  eapply perm_trans; [apply perm_skip, IH|apply perm_swap].
Qed.

Lemma sort_desc_perm (l : list TradePost) : Permutation (sort_desc l) l.
Proof.
  induction l as [|x l IH]; simpl; [reflexivity|].
  eapply perm_trans; [apply insert_desc_perm|]. now apply perm_skip.
Qed.

Lemma NoDup_map_filter {A B} (f : A -> B) (g : A -> bool) (l : list A) :
  NoDup (map f l) -> NoDup (map f (filter g l)).
Proof.
  induction l as [|x l IH]; simpl; intros H; [constructor|].
  inversion H as [|? ? Hn Hd]; subst. destruct (g x); simpl; auto.
  constructor; auto. intros Hin. apply Hn.
  apply in_map_iff in Hin as (y & Ey & Hy). apply filter_In in Hy as [Hy _].
  rewrite <- Ey. now apply in_map.
Qed.

Lemma NoDup_map_firstn {A B} (f : A -> B) (n : nat) (l : list A) :
  NoDup (map f l) -> NoDup (map f (firstn n l)).
Proof.
  intros H. rewrite <- (firstn_skipn n l), map_app in H.
  exact (NoDup_app_remove_r _ _ H).
Qed.

(** The posts given to the sort: deduplicated, artist-filtered and
    trade-filtered. *)
Definition selected (artist : option string) (l : list TradePost) : list TradePost :=
  filter is_trade_post
    (match artist with
     | Some a => if truthy_str artist then filter (fun p => contains_artist p a) (dedup l)
                 else dedup l
     | None => dedup l
     end).

Lemma finish_unfold (artist : option string) (limit : Z) (l : list TradePost) :
  finish artist limit l =
  let s := sort_desc (selected artist l) in
  if limit <? Z.of_nat (length s) then py_prefix limit s else s.
Proof. reflexivity. Qed.

Lemma finish_sublist (artist : option string) (limit : Z) (l : list TradePost) :
  exists n, finish artist limit l = firstn n (sort_desc (selected artist l)).
Proof.
  rewrite finish_unfold. cbv zeta.
  destruct (limit <? _).
  - unfold py_prefix. destruct (0 <=? limit); eexists; reflexivity.
  - exists (length (sort_desc (selected artist l))). now rewrite firstn_all.
Qed.

(** Every post [collect] returns passes the trade filter and, when an
    artist is given, the artist filter; no two returned posts have the
    same permalink up to trailing slashes. *)
Theorem finish_filters (artist : option string) (limit : Z) (l : list TradePost) :
  Forall (fun p => is_trade_post p = true /\
                   (truthy_str artist = true -> contains_artist p (default "" artist) = true))
         (finish artist limit l) /\
  NoDup (map normalized_url (finish artist limit l)).
Proof.
  destruct (finish_sublist artist limit l) as [n ->]. split.
  - apply Forall_forall. intros p Hp. apply RankProofs.In_firstn_incl in Hp.
    apply (proj1 (RankProofs.sort_desc_In _ _)) in Hp. unfold selected in Hp.
    apply filter_In in Hp as [Hp Ht]. split; [exact Ht|]. intros Ha.
    destruct artist as [a|]; [|discriminate]. rewrite Ha in Hp.
    apply filter_In in Hp as [_ Hc]. exact Hc.
  - apply NoDup_map_firstn.
    eapply Permutation_NoDup;
      [apply Permutation_map, Permutation_sym, sort_desc_perm|].
    unfold selected. apply NoDup_map_filter.
    pose proof (proj1 (DedupProofs.dedup_loop_fresh [] l)) as Hd.
    destruct artist as [a|]; [destruct (truthy_str (Some a))|];
      try apply NoDup_map_filter; exact Hd.
Qed.

Lemma filter_length_le' {A} (f : A -> bool) (l : list A) :
  (length (filter f l) <= length l)%nat.
Proof. induction l as [|x l IH]; simpl; [lia|]. destruct (f x); simpl; lia. Qed.

Lemma dedup_loop_length (seen : list string) (l : list TradePost) :
  (length (dedup_loop seen l) <= length l)%nat.
Proof.
  revert seen; induction l as [|p l IH]; intros seen; simpl; [lia|].
  destruct (existsb _ seen); simpl; [specialize (IH seen)|specialize (IH (normalized_url p :: seen))]; lia.
Qed.

Lemma selected_length (artist : option string) (l : list TradePost) :
  (length (selected artist l) <= length l)%nat.
Proof.
  unfold selected. eapply Nat.le_trans; [apply filter_length_le'|].
  pose proof (dedup_loop_length [] l) as H. unfold dedup.
  destruct artist as [a|]; [destruct (truthy_str (Some a))|]; try exact H.
  eapply Nat.le_trans; [apply filter_length_le'|exact H].
Qed.

(** A negative [limit] is a Python negative slice: instead of
    returning nothing, [collect] returns the posts it would return
    without truncation, minus the last [-limit] of them. *)
Theorem finish_negative_limit (artist : option string) (limit : Z) (l : list TradePost) :
  limit < 0 ->
  finish artist limit l =
  firstn (Z.to_nat (Z.of_nat (length (finish artist (Z.of_nat (length l)) l)) + limit))
         (finish artist (Z.of_nat (length l)) l).
Proof.
  intros Hneg. rewrite !finish_unfold. cbv zeta.
  set (s := sort_desc (selected artist l)).
  assert (Ls : (length s <= length l)%nat).
  { unfold s. rewrite (Permutation_length (sort_desc_perm _)). apply selected_length. }
  replace (Z.of_nat (length l) <? Z.of_nat (length s)) with false
    by (symmetry; apply Z.ltb_ge; lia).
  replace (limit <? Z.of_nat (length s)) with true by (symmetry; apply Z.ltb_lt; lia).
  unfold py_prefix. replace (0 <=? limit) with false by (symmetry; apply Z.leb_gt; lia).
  reflexivity.
Qed.

Definition serp_sample (t u : string) : TradePost :=
  serp_trade_post 0 (mkSerpItem (Some t) (Some u) None).

Lemma finish_negative_limit_witness :
  -1 < 0 /\
  finish None (-1) [serp_sample "WTS a" "u1"; serp_sample "WTB b" "u2"; serp_sample "WTT c" "u3"] =
  firstn (Z.to_nat (Z.of_nat (length (finish None 3
            [serp_sample "WTS a" "u1"; serp_sample "WTB b" "u2"; serp_sample "WTT c" "u3"])) + -1))
         (finish None 3 [serp_sample "WTS a" "u1"; serp_sample "WTB b" "u2"; serp_sample "WTT c" "u3"]).
Proof.
  split; [lia|].
  apply (finish_negative_limit None (-1)
           [serp_sample "WTS a" "u1"; serp_sample "WTB b" "u2"; serp_sample "WTT c" "u3"]).
  lia.
Defined.

Lemma sorted_split (s : list TradePost) :
  StronglySorted RankProofs.ranked s -> Forall wf_post s ->
  exists dated undated, s = (dated ++ undated)%list /\
    Forall (fun p => created_timestamp p <> None) dated /\
    Forall (fun p => created_timestamp p = None) undated.
Proof.
  induction s as [|p s IH]; intros Hs Hw.
  - exists [], []. repeat split; constructor.
  - inversion Hs as [|? ? Hs' Hp]; inversion Hw as [|? ? Hwp Hw']; subst.
    destruct (created_timestamp p) as [t|] eqn:Et.
    + destruct (IH Hs' Hw') as (d & u & -> & Hd & Hu). exists (p :: d), u.
      split; [reflexivity|]. split; [constructor; [congruence|exact Hd]|exact Hu].
    + exists [], (p :: s). split; [reflexivity|]. split; [constructor|].
      constructor; [exact Et|]. apply Forall_forall. intros q Hq.
      eapply Forall_forall in Hp; [|exact Hq]. eapply Forall_forall in Hw'; [|exact Hq].
      unfold RankProofs.ranked, sort_key in Hp. rewrite Et in Hp. unfold wf_post in Hw'.
      destruct (created_timestamp q) as [tq|]; [|reflexivity].
      simpl in Hp. unfold datetime_min in *. lia.
Qed.

(** In the list [collect] returns, every post with a timestamp comes
    before every post without one (the search-engine posts): the
    undated posts sort as [datetime.min]. *)
Theorem finish_undated_last (artist : option string) (limit : Z) (l : list TradePost) :
  Forall wf_post l ->
  exists dated undated, finish artist limit l = (dated ++ undated)%list /\
    Forall (fun p => created_timestamp p <> None) dated /\
    Forall (fun p => created_timestamp p = None) undated.
Proof.
  intros Hw. apply sorted_split; [apply RankProofs.finish_sorted|].
  apply Forall_forall. intros p Hp. apply RankProofs.finish_incl in Hp.
  eapply Forall_forall in Hw; [exact Hw|exact Hp].
Qed.

Definition dated_sample : TradePost :=
  mkTradePost "[WTS] svt pc" None None (Some "WTS") None None 0 0 "" (Some 5) 0
    "https://reddit.com/r/kpopforsale/comments/b/" None false (Some "kpopforsale") "reddit_api".

Lemma finish_undated_last_witness :
  Forall wf_post [serp_sample "WTS a" "u1"; dated_sample] /\
  exists dated undated,
    finish None 500 [serp_sample "WTS a" "u1"; dated_sample] = (dated ++ undated)%list /\
    Forall (fun p => created_timestamp p <> None) dated /\
    Forall (fun p => created_timestamp p = None) undated.
Proof.
  assert (Hw : Forall wf_post [serp_sample "WTS a" "u1"; dated_sample]).
  { constructor; [exact I|]. constructor; [|constructor]. unfold wf_post, datetime_min. simpl. lia. }
  split; [exact Hw|]. exact (finish_undated_last None 500 _ Hw).
Defined.

End FinishProofs.

(* ------------------------------------------------------------------ *)
(** * The collection pipeline: calls made and their order *)

Module PipelineProofs.

Import Model Collector Pipeline.

Lemma seq_calls_ok {X} (call : X -> Call) (f : X -> Result (list TradePost))
    (g : X -> list TradePost) (xs : list X) :
  (forall x, In x xs -> f x = Ok (g x)) ->
  seq_calls call f xs = (Ok (flat_map g xs), map call xs).
Proof.
  induction xs as [|x xs IH]; simpl; intros H; [reflexivity|].
  rewrite (H x (or_introl eq_refl)).
  rewrite IH by (intros y Hy; apply H; now right). reflexivity.
Qed.

Lemma seq_calls_raise {X} (call : X -> Call) (f : X -> Result (list TradePost))
    (pre post : list X) (x : X) (e : Exn) :
  (forall y, In y pre -> exists ps, f y = Ok ps) -> f x = Raise e ->
  seq_calls call f (pre ++ x :: post) = (Raise e, map call (pre ++ [x])).
Proof.
  induction pre as [|y pre IH]; simpl; intros Hpre Hx.
  - rewrite Hx. reflexivity.
  - destruct (Hpre y (or_introl eq_refl)) as [ps ->].
    rewrite IH; [reflexivity| |exact Hx]. intros z Hz. apply Hpre. now right.
Qed.

Lemma seq_calls_calls {X} (call : X -> Call) (f : X -> Result (list TradePost))
    (xs : list X) (c : Call) :
  In c (snd (seq_calls call f xs)) -> exists x, In x xs /\ c = call x.
Proof.
  induction xs as [|x xs IH]; simpl; [contradiction|].
  destruct (f x) as [ps|e].
  - destruct (seq_calls call f xs) as [r tr] eqn:E. simpl in IH |- *.
    intros [<-|H]; [eauto|]. destruct (IH H) as (y & Hy & ->). eauto.
  - simpl. intros [<-|[]]. eauto.
Qed.

Definition is_paginated_call (c : Call) : bool :=
  match c with CallPaginated _ _ _ _ => true | _ => false end.
Definition is_search_call (c : Call) : bool :=
  match c with CallSearch _ _ _ => true | _ => false end.
Definition is_serp_call (c : Call) : bool :=
  match c with CallSerp _ _ _ => true | _ => false end.

Section Calls.

Variable reddit_available reddit_auth serp_available : bool.
Variable paginated : string -> Z -> Z -> option Z -> Result (list TradePost * option string).
Variable search : string -> string -> Z -> Result (list TradePost).
Variable serp : string -> string -> Z -> Result (list TradePost).
Variable now : Z.

Lemma reddit_calls (artist : option string) (limit max_pages months : Z) (c : Call) :
  In c (snd (collect_from_reddit_api reddit_available reddit_auth paginated search now
               artist limit max_pages months)) ->
  is_serp_call c = false /\ (is_search_call c = true -> truthy_str artist = true).
Proof.
  unfold collect_from_reddit_api.
  destruct reddit_available, reddit_auth; cbn [negb fst snd]; try contradiction.
  destruct (sub_days now (months * 30)) as [md|e]; cbn [fst snd]; [|contradiction].
  match goal with |- context [seq_calls ?cl ?f SUBREDDITS] =>
    pose proof (seq_calls_calls cl f SUBREDDITS) as H1;
    destruct (seq_calls cl f SUBREDDITS) as [r1 tr1] eqn:E1 end.
  cbn [snd] in H1. destruct r1 as [ps1|e]; cbn [fst snd].
  - destruct (truthy_str artist) eqn:Ht.
    + match goal with |- context [seq_calls ?cl ?f ?xs] =>
        pose proof (seq_calls_calls cl f xs) as H2;
        destruct (seq_calls cl f xs) as [r2 tr2] eqn:E2 end.
      cbn [snd] in H2 |- *. intros Hc. apply in_app_or in Hc as [Hc|Hc].
      * destruct (H1 c Hc) as (s & _ & ->). split; [reflexivity|intros Hs; first [discriminate|assumption]].
      * destruct (H2 c Hc) as ([s q] & _ & ->). split; [reflexivity|intros Hs; first [discriminate|assumption]].
    + cbn [snd]. intros Hc. destruct (H1 c Hc) as (s & _ & ->). split; [reflexivity|intros Hs; first [discriminate|assumption]].
  - intros Hc. destruct (H1 c Hc) as (s & _ & ->). split; [reflexivity|intros Hs; first [discriminate|assumption]].
Qed.

Lemma serp_calls (artist : string) (limit : Z) (c : Call) :
  In c (snd (collect_from_serpapi serp_available serp artist limit)) -> is_serp_call c = true.
Proof.
  unfold collect_from_serpapi. destruct serp_available; cbn [negb snd]; [|contradiction].
  intros Hc. apply seq_calls_calls in Hc as (q & _ & ->). reflexivity.
Qed.

Lemma collect_calls (artist : option string) (limit : Z) (source : string)
    (max_pages months : Z) (c : Call) :
  In c (snd (collect reddit_available reddit_auth serp_available paginated search serp now
               artist limit source max_pages months)) ->
  ((String.eqb source "both" || String.eqb source "reddit")%bool = true /\
   In c (snd (collect_from_reddit_api reddit_available reddit_auth paginated search now
                artist limit max_pages months))) \/
  (((String.eqb source "both" || String.eqb source "serpapi") && truthy_str artist)%bool = true /\
   In c (snd (collect_from_serpapi serp_available serp (default "" artist) limit))).
Proof.
  unfold collect.
  destruct (String.eqb source "both" || String.eqb source "reddit")%bool eqn:Hr.
  - destruct (collect_from_reddit_api _ _ _ _ _ _ _ _ _) as [r1 tr1] eqn:E1.
    destruct r1 as [ps1|e].
    + destruct ((String.eqb source "both" || String.eqb source "serpapi") && truthy_str artist)%bool eqn:Hs.
      * destruct (collect_from_serpapi _ _ _ _) as [r2 tr2] eqn:E2.
        destruct r2; simpl; intros Hc; apply in_app_or in Hc as [Hc|Hc]; auto.
      * simpl. rewrite app_nil_r. intros Hc. auto.
    + simpl. intros Hc. auto.
  - destruct ((String.eqb source "both" || String.eqb source "serpapi") && truthy_str artist)%bool eqn:Hs.
    + destruct (collect_from_serpapi _ _ _ _) as [r2 tr2] eqn:E2.
      destruct r2; simpl; intros Hc; auto.
    + simpl. contradiction.
Qed.

(** Which calls [collect] can make: a SerpAPI query only when [source]
    is ["both"] or ["serpapi"] and an artist is given, a Reddit call only
    when [source] is ["both"] or ["reddit"], and a Reddit keyword search
    only when an artist is given. In particular any other [source], or
    ["serpapi"] without an artist, makes no call at all. *)
Theorem collect_routing (artist : option string) (limit : Z) (source : string)
    (max_pages months : Z) :
  Forall (fun c =>
    (is_serp_call c = true ->
     ((String.eqb source "both" || String.eqb source "serpapi") && truthy_str artist)%bool = true) /\
    (is_serp_call c = false ->
     (String.eqb source "both" || String.eqb source "reddit")%bool = true) /\
    (is_search_call c = true -> truthy_str artist = true))
    (snd (collect reddit_available reddit_auth serp_available paginated search serp now
            artist limit source max_pages months)).
Proof.
  apply Forall_forall. intros c Hc.
  apply collect_calls in Hc as [[Hr Hc]|[Hs Hc]].
  - destruct (reddit_calls _ _ _ _ _ Hc) as [Hns Hse].
    split; [rewrite Hns; discriminate|]. split; [intros _; exact Hr|exact Hse].
  - pose proof (serp_calls _ _ _ Hc) as Hsc.
    split; [intros _; exact Hs|]. split; [rewrite Hsc; discriminate|].
    intros _. apply andb_true_iff in Hs. apply Hs.
Qed.

(** When every service is available and every call succeeds, [collect]
    with [source = "both"] and an artist queries the four subreddits in
    order with the date bound [now - 30 * months] days, then searches
    the first two subreddits for the first two Reddit queries, then
    sends the five SerpAPI queries, and ranks all of their posts
    together. *)
Theorem collect_plan (a : string) (limit max_pages months md : Z)
    (pg : string -> list TradePost) (cur : string -> option string)
    (sr : string -> string -> list TradePost) (sp : string -> list TradePost) :
  reddit_available = true -> reddit_auth = true -> serp_available = true ->
  truthy_str (Some a) = true ->
  sub_days now (months * 30) = Ok md ->
  (forall s, In s SUBREDDITS -> paginated s limit max_pages (Some md) = Ok (pg s, cur s)) ->
  (forall s q, search s q 50 = Ok (sr s q)) ->
  (forall q, serp q "en" 10 = Ok (sp q)) ->
  collect reddit_available reddit_auth serp_available paginated search serp now
    (Some a) limit "both" max_pages months =
  (Ok (finish (Some a) limit
         (flat_map pg SUBREDDITS ++
          sr "kpopforsale" (a ++ " photocard")%string ++ sr "kpopforsale" (a ++ " pc")%string ++
          sr "kpopcollections" (a ++ " photocard")%string ++ sr "kpopcollections" (a ++ " pc")%string ++
          flat_map sp (snd (get_search_queries a)))),
   map (fun s => CallPaginated s limit max_pages (Some md)) SUBREDDITS ++
   [CallSearch "kpopforsale" (a ++ " photocard")%string 50; CallSearch "kpopforsale" (a ++ " pc")%string 50;
    CallSearch "kpopcollections" (a ++ " photocard")%string 50;
    CallSearch "kpopcollections" (a ++ " pc")%string 50] ++
   map (fun q => CallSerp q "en" 10) (snd (get_search_queries a)))%list.
Proof.
  intros Ha Hu Hv Ht Hm Hp Hs Hsp. unfold collect, collect_from_reddit_api, collect_from_serpapi.
  rewrite Ha, Hu, Hv, Hm, Ht. cbn [negb String.eqb orb andb default].
  rewrite (seq_calls_ok _ _ pg) by (intros s Hs'; rewrite (Hp s Hs'); reflexivity).
  rewrite (seq_calls_ok _ _ (fun '(s, q) => sr s q)) by (intros [s q] _; apply Hs).
  rewrite (seq_calls_ok _ _ sp) by (intros q _; apply Hsp).
  cbn [flat_map map firstn fst SUBREDDITS get_search_queries String.eqb Ascii.eqb Bool.eqb orb andb List.app].
  rewrite !app_nil_r, <- !app_assoc. reflexivity.
Qed.

(** An exception escaping [get_posts_paginated] for one subreddit
    (e.g. a [ValueError] from a bad [created_utc]) aborts [collect]:
    no later subreddit is read, no search and no SerpAPI query is
    made, and nothing is returned. *)
Theorem collect_paginated_raise (artist : option string) (limit : Z) (source : string)
    (max_pages months md : Z) (pre post : list string) (s : string) (e : Exn) :
  reddit_available = true -> reddit_auth = true ->
  (String.eqb source "both" || String.eqb source "reddit")%bool = true ->
  sub_days now (months * 30) = Ok md ->
  SUBREDDITS = (pre ++ s :: post)%list ->
  (forall s', In s' pre -> exists r, paginated s' limit max_pages (Some md) = Ok r) ->
  paginated s limit max_pages (Some md) = Raise e ->
  collect reddit_available reddit_auth serp_available paginated search serp now
    artist limit source max_pages months =
  (Raise e, map (fun s => CallPaginated s limit max_pages (Some md)) (pre ++ [s])).
Proof.
  intros Ha Hu Hr Hm Hsplit Hpre He. unfold collect.
  rewrite Hr. unfold collect_from_reddit_api. rewrite Ha, Hu, Hm. cbn [negb].
  rewrite Hsplit, seq_calls_raise with (e := e).
  - reflexivity.
  - intros y Hy. destruct (Hpre y Hy) as [[ps c] ->]. eauto.
  - rewrite He. reflexivity.
Qed.

(** A [--months] value that puts [now - 30 * months] days outside the
    [datetime] range makes [collect] raise [OverflowError] right after
    [authenticate] succeeds, whenever Reddit is read: no subreddit
    listing, keyword search or SerpAPI request is made. The token
    request that [authenticate] may send is not among the recorded
    calls; its outcome is [reddit_auth]. *)
Theorem collect_months_overflow (artist : option string) (limit : Z) (source : string)
    (max_pages months : Z) :
  reddit_available = true -> reddit_auth = true ->
  (String.eqb source "both" || String.eqb source "reddit")%bool = true ->
  now - months * 30 * 86400 < datetime_min \/ datetime_max < now - months * 30 * 86400 ->
  collect reddit_available reddit_auth serp_available paginated search serp now
    artist limit source max_pages months = (Raise OverflowError, []).
Proof.
  intros Ha Hu Hr Hd. unfold collect. rewrite Hr.
  unfold collect_from_reddit_api. rewrite Ha, Hu. cbn [negb].
  unfold sub_days. rewrite <- Z.mul_assoc in Hd.
  replace ((now - months * 30 * 86400 <? datetime_min) || (datetime_max <? now - months * 30 * 86400))%bool
    with true.
  - reflexivity.
  - symmetry. apply orb_true_iff. rewrite <- !Z.mul_assoc.
    destruct Hd; [left|right]; apply Z.ltb_lt; assumption.
Qed.

(** With [--all], [main] ignores [--artist]: the collection is the one
    for no artist, and it only reads the subreddit listings (no keyword
    search, no SerpAPI). Without [--all], [main] collects nothing
    exactly when [--artist] is missing or empty. *)
Theorem main_collect_all (artist : option string) (limit : Z) (source : string)
    (pages months : Z) :
  (exists res,
     main_collect reddit_available reddit_auth serp_available paginated search serp now
       true artist limit source pages months = Some res /\
     res = collect reddit_available reddit_auth serp_available paginated search serp now
             None limit source pages months /\
     Forall (fun c => is_paginated_call c = true) (snd res)) /\
  (main_collect reddit_available reddit_auth serp_available paginated search serp now
     false artist limit source pages months = None <-> truthy_str artist = false).
Proof.
  split.
  - eexists. split; [reflexivity|]. split; [reflexivity|].
    apply Forall_forall. intros c Hc.
    apply collect_calls in Hc as [[_ Hc]|[Hs _]].
    + destruct (reddit_calls _ _ _ _ _ Hc) as [Hns Hse].
      destruct c; simpl in *; [reflexivity| |discriminate].
      specialize (Hse eq_refl). discriminate.
    + apply andb_true_iff in Hs as [_ Hs]. discriminate.
  - unfold main_collect, main_artist. simpl negb.
    destruct (truthy_str artist); simpl; split; intros H; try reflexivity; discriminate.
Qed.

End Calls.

Definition no_posts_paginated (s : string) (limit max_pages : Z) (md : option Z)
  : Result (list TradePost * option string) := Ok ([], None).
Definition no_posts_search (s q : string) (limit : Z) : Result (list TradePost) := Ok [].
Definition bad_collections_paginated (s : string) (limit max_pages : Z) (md : option Z)
  : Result (list TradePost * option string) :=
  if String.eqb s "kpopcollections" then Raise ValueError else Ok ([], None).

Lemma collect_plan_witness :
  collect true true true no_posts_paginated no_posts_search no_posts_search epoch
    (Some "svt") 500 "both" 5 6 =
  (Ok (finish (Some "svt") 500
         (flat_map (fun _ => []) SUBREDDITS ++
          [] ++ [] ++ [] ++ [] ++
          flat_map (fun _ => []) (snd (get_search_queries "svt")))),
   map (fun s => CallPaginated s 500 5 (Some 62120044800)) SUBREDDITS ++
   [CallSearch "kpopforsale" ("svt" ++ " photocard")%string 50;
    CallSearch "kpopforsale" ("svt" ++ " pc")%string 50;
    CallSearch "kpopcollections" ("svt" ++ " photocard")%string 50;
    CallSearch "kpopcollections" ("svt" ++ " pc")%string 50] ++
   map (fun q => CallSerp q "en" 10) (snd (get_search_queries "svt")))%list.
Proof.
  apply (collect_plan true true true no_posts_paginated no_posts_search no_posts_search epoch
           "svt" 500 5 6 62120044800 (fun _ => []) (fun _ => None) (fun _ _ => [])
           (fun _ => [])); intros; reflexivity.
Defined.

Lemma collect_paginated_raise_witness :
  collect true true true bad_collections_paginated no_posts_search no_posts_search epoch
    (Some "svt") 500 "both" 5 6 =
  (Raise ValueError,
   map (fun s => CallPaginated s 500 5 (Some 62120044800)) (["kpopforsale"] ++ ["kpopcollections"])).
Proof.
  apply (collect_paginated_raise true true true bad_collections_paginated no_posts_search
           no_posts_search epoch (Some "svt") 500 "both" 5 6 62120044800
           ["kpopforsale"] ["kpoptrade"; "adultkpopfans"] "kpopcollections" ValueError);
    try reflexivity.
  intros s' [<-|[]]. eexists. reflexivity.
Defined.

Lemma collect_months_overflow_witness :
  collect true true false no_posts_paginated no_posts_search no_posts_search epoch
    None 500 "reddit" 5 100000 = (Raise OverflowError, []).
Proof.
  apply (collect_months_overflow true true false no_posts_paginated no_posts_search
           no_posts_search epoch None 500 "reddit" 5 100000); try reflexivity.
  left. unfold epoch, datetime_min. lia.
Defined.

End PipelineProofs.

(* ------------------------------------------------------------------ *)
(** * The per-source statistics of [main] *)

Module StatsProofs.

Import Model Pipeline.

(** [sources.get(k, 0)] *)
Fixpoint get (d : list (string * Z)) (k : string) : Z :=
  match d with
  | [] => 0
  | (k', v) :: d' => if String.eqb k k' then v else get d' k
  end.

(** The number of posts whose [source] is [k]. *)
Definition count_source (k : string) (ps : list TradePost) : Z :=
  Z.of_nat (length (filter (fun p => String.eqb (source p) k) ps)).

Lemma get_dict_incr (k : string) (d : list (string * Z)) (k' : string) :
  get (dict_incr k d) k' = get d k' + if String.eqb k' k then 1 else 0.
Proof.
  induction d as [|[k0 v] d IH]; simpl.
  - destruct (String.eqb k' k); reflexivity.
  - destruct (String.eqb k k0) eqn:E; simpl.
    + apply String.eqb_eq in E; subst k0. destruct (String.eqb k' k); lia.
    + destruct (String.eqb_spec k' k0) as [->|Hne].
      * rewrite (String.eqb_sym k0 k), E. lia.
      * exact IH.
Qed.

Lemma dict_incr_keys (k : string) (d : list (string * Z)) :
  map fst (dict_incr k d) =
  if existsb (String.eqb k) (map fst d) then map fst d else (map fst d ++ [k])%list.
Proof.
  induction d as [|[k0 v] d IH]; simpl; [reflexivity|].
  destruct (String.eqb k k0); simpl; [reflexivity|].
  rewrite IH. destruct (existsb _ _); reflexivity.
Qed.

Lemma dict_incr_nodup (k : string) (d : list (string * Z)) :
  NoDup (map fst d) -> NoDup (map fst (dict_incr k d)).
Proof.
  intros Hd. rewrite dict_incr_keys. destruct (existsb (String.eqb k) (map fst d)) eqn:E;
    [exact Hd|].
  apply (Permutation_NoDup (Permutation_cons_append _ _)).
  constructor; [|exact Hd]. intros Hin.
  assert (existsb (String.eqb k) (map fst d) = true) as Ht.
  { apply existsb_exists. exists k. split; [exact Hin|apply String.eqb_refl]. }
  congruence.
Qed.

Lemma dict_incr_pos (k : string) (d : list (string * Z)) :
  Forall (fun kv => 0 < snd kv) d -> Forall (fun kv => 0 < snd kv) (dict_incr k d).
Proof.
  induction d as [|[k0 v] d IH]; simpl; intros Hd.
  - constructor; [simpl; lia|constructor].
  - inversion Hd as [|? ? Hv Hd']; subst.
    destruct (String.eqb k k0); constructor; simpl in *; try lia; auto.
Qed.

Lemma get_In (d : list (string * Z)) (k : string) (n : Z) :
  NoDup (map fst d) -> In (k, n) d -> get d k = n.
Proof.
  induction d as [|[k0 v] d IH]; simpl; intros Hd Hin; [contradiction|].
  inversion Hd as [|? ? Hk Hd']; subst.
  destruct Hin as [Heq|Hin].
  - injection Heq as -> ->. rewrite String.eqb_refl. reflexivity.
  - destruct (String.eqb_spec k k0) as [->|Hne]; [|apply IH; assumption].
    exfalso. apply Hk. apply (in_map fst) in Hin. exact Hin.
Qed.

Lemma In_get (d : list (string * Z)) (k : string) :
  In k (map fst d) -> In (k, get d k) d.
Proof.
  induction d as [|[k0 v] d IH]; simpl; [contradiction|]. intros Hk.
  destruct (String.eqb_spec k k0) as [->|Hne]; [now left|].
  right. apply IH. destruct Hk as [->|Hk]; [contradiction Hne; reflexivity|exact Hk].
Qed.

Lemma get_notin (d : list (string * Z)) (k : string) :
  ~ In k (map fst d) -> get d k = 0.
Proof.
  induction d as [|[k0 v] d IH]; simpl; intros Hk; [reflexivity|].
  destruct (String.eqb_spec k k0) as [->|Hne]; [tauto|]. apply IH. tauto.
Qed.

Lemma source_counts_fold (ps : list TradePost) (d : list (string * Z)) :
  let d' := fold_left (fun d p => dict_incr (source p) d) ps d in
  (NoDup (map fst d) -> NoDup (map fst d')) /\
  (Forall (fun kv => 0 < snd kv) d -> Forall (fun kv => 0 < snd kv) d') /\
  (forall k, get d' k = get d k + count_source k ps).
Proof.
  revert d; induction ps as [|p ps IH]; intros d; simpl.
  - split; [tauto|]. split; [tauto|]. intros k. unfold count_source. simpl. lia.
  - destruct (IH (dict_incr (source p) d)) as (H1 & H2 & H3). split; [|split].
    + intros Hd. apply H1, dict_incr_nodup, Hd.
    + intros Hd. apply H2, dict_incr_pos, Hd.
    + intros k. rewrite H3, get_dict_incr. unfold count_source. simpl.
      rewrite (String.eqb_sym (source p) k).
      destruct (String.eqb k (source p)); simpl; lia.
Qed.

Definition by_count (x y : string * Z) : Prop := snd y <= snd x.

Lemma insert_by_count_perm (x : string * Z) (l : list (string * Z)) :
  Permutation (insert_by_count x l) (x :: l).
Proof.
  induction l as [|y l IH]; simpl; [reflexivity|].
  destruct (- snd x <? - snd y); [reflexivity|].
  rewrite IH. apply perm_swap.
Qed.

Lemma insert_by_count_sorted (x : string * Z) (l : list (string * Z)) :
  StronglySorted by_count l -> StronglySorted by_count (insert_by_count x l).
Proof.
  induction l as [|y l IH]; simpl; intros Hs.
  - constructor; constructor.
  - inversion Hs as [|? ? Hs' Hy]; subst.
    destruct (- snd x <? - snd y) eqn:E.
    + apply Z.ltb_lt in E. constructor; [exact Hs|]. constructor; [unfold by_count; lia|].
      eapply Forall_impl; [|exact Hy]. unfold by_count. intros z Hz. lia.
    + apply Z.ltb_ge in E. constructor; [apply IH, Hs'|].
      apply Forall_forall. intros z Hz.
      apply (Permutation_in _ (insert_by_count_perm x l)) in Hz as [<-|Hz].
      * unfold by_count. lia.
      * eapply Forall_forall in Hy; [exact Hy|exact Hz].
Qed.

Lemma source_stats_fold (l acc : list (string * Z)) :
  StronglySorted by_count acc ->
  Permutation (fold_left (fun acc x => insert_by_count x acc) l acc) (l ++ acc)%list /\
  StronglySorted by_count (fold_left (fun acc x => insert_by_count x acc) l acc).
Proof.
  revert acc; induction l as [|x l IH]; intros acc Hs; simpl; [split; [reflexivity|exact Hs]|].
  destruct (IH (insert_by_count x acc) (insert_by_count_sorted x acc Hs)) as [Hp Hs'].
  split; [|exact Hs'].
  rewrite Hp, insert_by_count_perm. symmetry; apply Permutation_middle.
Qed.

(** The statistics [main] prints list each source once, with the number
    of collected posts from that source (sources with no post are not
    listed), in non-increasing order of that number. *)
Theorem source_stats_spec (posts : list TradePost) :
  NoDup (map fst (source_stats posts)) /\
  (forall k n, In (k, n) (source_stats posts) <-> n = count_source k posts /\ 0 < n) /\
  StronglySorted by_count (source_stats posts).
Proof.
  unfold source_stats.
  destruct (source_stats_fold (source_counts posts) [] (SSorted_nil _)) as [Hp Hs].
  rewrite app_nil_r in Hp.
  destruct (source_counts_fold posts []) as (H1 & H2 & H3). fold (source_counts posts) in H1, H2, H3.
  specialize (H1 (NoDup_nil _)). specialize (H2 (Forall_nil _)).
  split; [|split; [|exact Hs]].
  - exact (Permutation_NoDup (Permutation_map fst (Permutation_sym Hp)) H1).
  - intros k n. split.
    + intros Hin. apply (Permutation_in _ Hp) in Hin.
      pose proof (get_In _ _ _ H1 Hin) as Hg. rewrite H3 in Hg. simpl in Hg.
      split; [lia|]. exact (proj1 (Forall_forall _ _) H2 _ Hin).
    + intros [-> Hn]. apply (Permutation_in _ (Permutation_sym Hp)).
      assert (Hk : In k (map fst (source_counts posts))).
      { destruct (in_dec String.string_dec k (map fst (source_counts posts))) as [Hk|Hk];
          [exact Hk|].
        apply get_notin in Hk. rewrite H3 in Hk. simpl in Hk. lia. }
      apply In_get in Hk. rewrite H3 in Hk. exact Hk.
Qed.

End StatsProofs.
